(** * cpp_linter.common_fs: diff-aware line filtering, verified

    A shallow embedding of [src/cpp_linter/common_fs.py].

    - Python [int] is [Z]; [List[int]] is [list Z]; [List[List[int]]] is
      [list (list Z)]; [str] is [string]; [bytes] is [list byte].
    - A Python call that can raise is a computation in the error monad
      [Exc]; the exceptions that the modelled code can meet are listed in
      [exn].
    - The standard-library functions the module calls ([os.path.commonpath],
      [pathlib.PurePath], [bytes.count], [bytes.rfind], list indexing and
      slicing) are embedded from their CPython definitions, POSIX flavour:
      [/] is the only separator, a backslash is an ordinary character and
      there is no drive.
    - The file system is a parameter of [get_line_cnt_from_cols].
    - The walk of the directory tree is a parameter of [list_source_files].
    - [logger.debug] and [start_log_group] only write to the log and are
      left out. *)

From Stdlib Require Import ZArith List Bool Lia Sorted.
From Stdlib.Strings Require Import String Ascii Byte.
Import ListNotations.

Local Open Scope Z_scope.

(** ** Exceptions *)

Inductive exn : Type :=
| IndexError
| ValueError
| OSError.

Inductive Exc (A : Type) : Type :=
| Ok (a : A)
| Raise (e : exn).

Arguments Ok {A} a.
Arguments Raise {A} e.

Definition bind {A B : Type} (m : Exc A) (k : A -> Exc B) : Exc B :=
  match m with
  | Ok a => k a
  | Raise e => Raise e
  end.

Declare Scope exc_scope.
Delimit Scope exc_scope with exc.
Notation "x <- m ;; k" := (bind m (fun x => k))
  (at level 61, m at next level, right associativity) : exc_scope.
Local Open Scope exc_scope.

(** ** Python lists *)

Section PyList.
Context {A : Type}.

Definition len (l : list A) : Z := Z.of_nat (List.length l).
#[global] Arguments len : simpl never.

(** [l[i]]: a negative index counts from the end; out of range raises. *)
Definition py_index (l : list A) (i : Z) : Exc A :=
  let j := if i <? 0 then i + len l else i in
  if j <? 0 then Raise IndexError
  else match nth_error l (Z.to_nat j) with
       | Some x => Ok x
       | None => Raise IndexError
       end.

(** [l[:stop]]: a negative stop counts from the end; never raises. *)
Definition py_slice_to (l : list A) (stop : Z) : list A :=
  let j := if stop <? 0 then Z.max 0 (stop + len l) else stop in
  firstn (Z.to_nat j) l.

(** [for i, x in enumerate(xs): s = body(s, i, x)], started at index [i]. *)
Fixpoint for_enumerate {S : Type} (body : S -> Z -> A -> Exc S)
    (i : Z) (xs : list A) (s : S) : Exc S :=
  match xs with
  | [] => Ok s
  | x :: xs' => s' <- body s i x ;; for_enumerate body (i + 1) xs' s'
  end.

(** [for x in xs: s = body(s, x)]. *)
Fixpoint for_each {S : Type} (body : S -> A -> Exc S) (xs : list A) (s : S)
    : Exc S :=
  match xs with
  | [] => Ok s
  | x :: xs' => s' <- body s x ;; for_each body xs' s'
  end.
End PyList.

(** [result[-1].append(x)]: the last inner list of [result] grows by [x];
    [result[-1]] raises on an empty [result]. *)
Fixpoint append_to_last (result : list (list Z)) (x : Z)
    : Exc (list (list Z)) :=
  match result with
  | [] => Raise IndexError
  | [r] => Ok [r ++ [x]]
  | r :: rest => rest' <- append_to_last rest x ;; Ok (r :: rest')
  end.

(** A value of type [Union[List[int], List[List[int]]]]: Python does not
    tell an empty list of numbers from an empty list of ranges. *)
#[warnings="-register-all"]
Inductive pyval : Type :=
| PyInt (z : Z)
| PyList (l : list pyval).

Definition of_lines (l : list Z) : pyval := PyList (map PyInt l).
Definition of_ranges (l : list (list Z)) : pyval := PyList (map of_lines l).

(** Truth value of an [int]. *)
Definition truthy (z : Z) : bool := negb (z =? 0).

(** A JSON-compatible value, as [serialize] builds it; a [dict] keeps its
    keys in the order they were written. *)
#[warnings="-register-all"]
Inductive json : Type :=
| JStr (s : string)
| JInt (z : Z)
| JList (l : list json)
| JDict (d : list (string * json)).

Definition json_lines (l : list Z) : json := JList (map JInt l).
Definition json_ranges (l : list (list Z)) : json := JList (map json_lines l).

(** ** FileObj *)

Module FileObj.

Record t : Type := mk {
  name : string;
  additions : list Z;
  diff_chunks : list (list Z);
  lines_added : list (list Z)
}.

(** One iteration of the loop of [_consolidate_list_to_ranges]. *)
Definition consolidate_body (numbers : list Z)
    (result : list (list Z)) (i n : Z) : Exc (list (list Z)) :=
  result1 <-
    (if i =? 0 then Ok (result ++ [[n]])
     else
       prev <- py_index numbers (i - 1) ;;
       if negb (n - 1 =? prev) then
         result' <- append_to_last result (prev + 1) ;;
         Ok (result' ++ [[n]])
       else Ok result) ;;
  if i =? len numbers - 1 then append_to_last result1 (n + 1)
  else Ok result1.

Definition _consolidate_list_to_ranges (numbers : list Z)
    : Exc (list (list Z)) :=
  for_enumerate (consolidate_body numbers) 0 numbers [].

Definition __init__ (name : string) (additions : list Z)
    (diff_chunks : list (list Z)) : Exc t :=
  lines_added <- _consolidate_list_to_ranges additions ;;
  Ok (mk name additions diff_chunks lines_added).

Definition range_of_changed_lines (self : t) (lines_changed_only : Z)
    (get_ranges : bool) : pyval :=
  if truthy lines_changed_only then
    let ranges :=
      if lines_changed_only =? 1 then diff_chunks self
      else lines_added self in
    if get_ranges then of_ranges ranges
    else of_lines (additions self)
  else PyList [].

Definition serialize (self : t) : json :=
  JDict
    [("filename"%string, JStr (name self));
     ("line_filter"%string,
      JDict [("diff_chunks"%string, json_ranges (diff_chunks self));
             ("lines_added"%string, json_ranges (lines_added self))])].

End FileObj.

Definition has_line_changes (lines_changed_only : Z)
    (diff_chunks : list (list Z)) (additions : list Z) : bool :=
  ((lines_changed_only =? 1) && (len diff_chunks >? 0))
  || ((lines_changed_only =? 2) && (len additions >? 0))
  || negb (truthy lines_changed_only).


(** ** Python strings *)

Section PyStr.
Local Open Scope string_scope.

(** [s.split(sep)] for a one-character separator. *)
Fixpoint str_split (sep : ascii) (s : string) : list string :=
  match s with
  | EmptyString => [EmptyString]
  | String c s' =>
      if Ascii.eqb c sep then EmptyString :: str_split sep s'
      else match str_split sep s' with
           | [] => [String c EmptyString]
           | h :: t => String c h :: t
           end
  end.

(** [s.replace(a, b)] for one-character [a] and [b]. *)
Fixpoint str_replace (a b : ascii) (s : string) : string :=
  match s with
  | EmptyString => EmptyString
  | String c s' => String (if Ascii.eqb c a then b else c) (str_replace a b s')
  end.

(** [s.lstrip(c)] for a one-character set. *)
Fixpoint str_lstrip (c : ascii) (s : string) : string :=
  match s with
  | EmptyString => EmptyString
  | String c' s' => if Ascii.eqb c' c then str_lstrip c s' else s
  end.

(** [s[n:]] for [n >= 0]. *)
Fixpoint str_drop (n : nat) (s : string) : string :=
  match n, s with
  | O, _ => s
  | S n', String _ s' => str_drop n' s'
  | S _, EmptyString => EmptyString
  end.

Fixpoint str_rfind_from (c : ascii) (s : string) (i last : Z) : Z :=
  match s with
  | EmptyString => last
  | String c' s' =>
      str_rfind_from c s' (i + 1) (if Ascii.eqb c' c then i else last)
  end.

(** [s.rfind(c)]: the highest index of [c] in [s], or [-1]. *)
Definition str_rfind (c : ascii) (s : string) : Z :=
  str_rfind_from c s 0 (-1).

Definition str_len (s : string) : Z := Z.of_nat (String.length s).

(** [x in l] for a list of strings. *)
Definition str_in (x : string) (l : list string) : bool :=
  existsb (String.eqb x) l.

(** [c in s] for one character [c]: [c] occurs in [s]. *)
Fixpoint str_has (c : ascii) (s : string) : bool :=
  match s with
  | EmptyString => false
  | String c' s' => Ascii.eqb c' c || str_has c s'
  end.

(** ["**" in s]. *)
Fixpoint has_double_star (s : string) : bool :=
  match s with
  | String a ((String b _) as tl) =>
      Ascii.eqb a "*" && Ascii.eqb b "*" || has_double_star tl
  | _ => false
  end.

(** [s.startswith(c)] for a one-character prefix. *)
Definition str_startswith (c : ascii) (s : string) : bool :=
  match s with
  | EmptyString => false
  | String c' _ => Ascii.eqb c' c
  end.
End PyStr.

(** ** pathlib.PurePath, POSIX flavour *)

Module PurePath.
Local Open Scope string_scope.

(** The drive is always empty on POSIX and is left out. *)
Record t : Type := mk { root : string; parts : list string }.

(** [posixpath.splitroot], without the drive. *)
Definition splitroot (p : string) : string * string :=
  if negb (substring 0 1 p =? "/") then ("", p)
  else if negb (substring 1 1 p =? "/") || (substring 2 1 p =? "/") then
    ("/", str_drop 1 p)
  else (substring 0 2 p, str_drop 2 p).

Definition is_part (x : string) : bool := negb (x =? "") && negb (x =? ".").

(** [PurePath(path)], that is [PurePath._parse_path]. *)
Definition parse (path : string) : t :=
  if path =? "" then mk "" []
  else
    let '(root, rel) := splitroot path in
    mk root (filter is_part (str_split "/" rel)).

(** [str(self)]; on POSIX [as_posix] is the same string. *)
Definition as_posix (self : t) : string :=
  let s := root self ++ String.concat "/" (parts self) in
  if s =? "" then "." else s.

Definition name (self : t) : string := last (parts self) "".

(** [self.suffix], as in CPython up to 3.13. *)
Definition suffix (self : t) : string :=
  let name := name self in
  let i := str_rfind "." name in
  if ((0 <? i) && (i <? str_len name - 1))%Z then str_drop (Z.to_nat i) name
  else "".

(** [self.parts]: the root, when there is one, then the parts. *)
Definition all_parts (self : t) : list string :=
  if root self =? "" then parts self else root self :: parts self.
End PurePath.

(** ** os.path.commonpath, POSIX flavour *)

(** [a < b] on lists of strings is lexicographic, strings by code point. *)
Fixpoint segs_compare (a b : list string) : comparison :=
  match a, b with
  | [], [] => Eq
  | [], _ :: _ => Lt
  | _ :: _, [] => Gt
  | x :: a', y :: b' =>
      match String.compare x y with
      | Eq => segs_compare a' b'
      | c => c
      end
  end.

Definition segs_ltb (a b : list string) : bool :=
  match segs_compare a b with Lt => true | _ => false end.

(** [min(l)] and [max(l)] keep the first extremal item. *)
Definition py_min (l : list (list string)) : Exc (list string) :=
  match l with
  | [] => Raise ValueError
  | x :: rest =>
      Ok (fold_left (fun cur item => if segs_ltb item cur then item else cur)
                    rest x)
  end.

Definition py_max (l : list (list string)) : Exc (list string) :=
  match l with
  | [] => Raise ValueError
  | x :: rest =>
      Ok (fold_left (fun cur item => if segs_ltb cur item then item else cur)
                    rest x)
  end.

(** [for i, c in enumerate(s1): if c != s2[i]: common = s1[:i]; break],
    with [common = s1] before the loop. *)
Fixpoint commonpath_loop (s1 s2 : list string) (i : Z) (rest : list string)
    : Exc (list string) :=
  match rest with
  | [] => Ok s1
  | c :: rest' =>
      x <- py_index s2 i ;;
      if negb (String.eqb c x) then Ok (py_slice_to s1 i)
      else commonpath_loop s1 s2 (i + 1) rest'
  end.

Definition is_segment (c : string) : bool :=
  negb (String.eqb c "") && negb (String.eqb c ".").

Definition starts_with_sep (p : string) : bool :=
  String.eqb (substring 0 1 p) "/".

Definition commonpath (paths : list string) : Exc string :=
  match paths with
  | [] => Raise ValueError
  | _ :: _ =>
      let split_paths := map (str_split "/") paths in
      match nodup bool_dec (map starts_with_sep paths) with
      | [isabs] =>
          let split_paths := map (filter is_segment) split_paths in
          s1 <- py_min split_paths ;;
          s2 <- py_max split_paths ;;
          common <- commonpath_loop s1 s2 0 s1 ;;
          let prefix := if isabs then "/"%string else ""%string in
          Ok (prefix ++ String.concat "/" common)%string
      | _ => Raise ValueError
      end
  end.

(** ** The inclusion filter *)

Fixpoint is_file_in_list (paths : list string) (file_name prompt : string)
    : Exc bool :=
  match paths with
  | [] => Ok false
  | path :: paths' =>
      result <- commonpath [PurePath.as_posix (PurePath.parse path);
                            PurePath.as_posix (PurePath.parse file_name)] ;;
      if String.eqb (str_replace "\" "/" result) path then Ok true
      else is_file_in_list paths' file_name prompt
  end.

Definition is_source_or_ignored (file_name : string)
    (ext_list ignored not_ignored : list string) : Exc bool :=
  if str_in (str_lstrip "." (PurePath.suffix (PurePath.parse file_name)))
            ext_list
  then
    included <- is_file_in_list not_ignored file_name "not ignored" ;;
    if included then Ok true
    else
      excluded <- is_file_in_list ignored file_name "ignored" ;;
      Ok (negb excluded)
  else Ok false.

(** ** Source file discovery *)

(** [for parent in parents: if parent.startswith("."): break], true when
    the loop ends without [break], so that its [else] branch runs. *)
Fixpoint parents_loop (parents : list string) : bool :=
  match parents with
  | [] => true
  | parent :: rest =>
      if str_startswith "." parent then false else parents_loop rest
  end.

(** The body of the inner loop of [list_source_files]. *)
Definition source_file_body (ignored not_ignored : list string)
    (files : list FileObj.t) (rel_path : PurePath.t) : Exc (list FileObj.t) :=
  if parents_loop (py_slice_to (PurePath.all_parts rel_path) (-1)) then
    let file_path := PurePath.as_posix rel_path in
    included <- is_file_in_list not_ignored file_path "not ignored" ;;
    keep <- (if included then Ok true
             else
               excluded <- is_file_in_list ignored file_path "ignored" ;;
               Ok (negb excluded)) ;;
    if keep then
      file <- FileObj.__init__ file_path [] [] ;;
      Ok (files ++ [file])
    else Ok files
  else Ok files.

(** [_make_selector] of [pathlib] (CPython up to 3.12) rejects a pattern one
    of whose parts holds [**] without being [**]. *)
Definition invalid_glob (pattern : string) : bool :=
  existsb (fun pat => negb (String.eqb pat "**") && has_double_star pat)
          (PurePath.parts (PurePath.parse pattern)).

(** [Path(".").rglob(pattern)] for a pattern that starts with [*], hence a
    relative one. It is a generator: iterating it gives the paths it yields,
    then the exception that ends it, if any. An invalid pattern ends it with
    [ValueError] before the first path. The walk of the directory tree is a
    parameter: [walk pattern] is what the tree yields for a valid pattern,
    in its order, and the error that interrupts the walk, if one does. *)
Definition rglob (walk : string -> list PurePath.t * option exn)
    (pattern : string) : list PurePath.t * option exn :=
  if invalid_glob pattern then ([], Some ValueError) else walk pattern.

(** [for x in gen: s = body(s, x)] over a generator. *)
Definition for_each_yielded {A S : Type} (body : S -> A -> Exc S)
    (gen : list A * option exn) (s : S) : Exc S :=
  s' <- for_each body (fst gen) s ;;
  match snd gen with
  | None => Ok s'
  | Some e => Raise e
  end.

(** [start_log_group] only writes to the log. *)
Definition list_source_files (walk : string -> list PurePath.t * option exn)
    (extensions ignored not_ignored : list string) : Exc (list FileObj.t) :=
  for_each
    (fun files ext =>
       for_each_yielded (source_file_body ignored not_ignored)
                        (rglob walk ("*." ++ ext)%string) files)
    extensions [].

(** ** The offset translator *)

Definition newline : byte := x0a.

(** [contents.count(b)] for a single byte. *)
Fixpoint bytes_count (b : byte) (contents : list byte) : Z :=
  match contents with
  | [] => 0
  | x :: rest => (if Byte.eqb x b then 1 else 0) + bytes_count b rest
  end.

Fixpoint bytes_rfind_from (b : byte) (contents : list byte) (i last : Z) : Z :=
  match contents with
  | [] => last
  | x :: rest =>
      bytes_rfind_from b rest (i + 1) (if Byte.eqb x b then i else last)
  end.

(** [contents.rfind(b)] for a single byte: the highest index, or [-1]. *)
Definition bytes_rfind (b : byte) (contents : list byte) : Z :=
  bytes_rfind_from b contents 0 (-1).

(** The file system is a map from paths to contents; [Path.read_bytes]
    raises on a path that cannot be read. A path that holds a NUL names no
    file, and [open] rejects it with [ValueError]. *)
Definition read_bytes (fs : string -> option (list byte)) (file_path : string)
    : Exc (list byte) :=
  match fs file_path with
  | Some data => Ok data
  | None =>
      if str_has "000"%char file_path then Raise ValueError
      else Raise OSError
  end.

Definition get_line_cnt_from_cols (fs : string -> option (list byte))
    (file_path : string) (offset : Z) : Exc (Z * Z) :=
  data <- read_bytes fs file_path ;;
  let contents := py_slice_to data offset in
  Ok (bytes_count newline contents + 1, offset - bytes_rfind newline contents).

(** * Specification vocabulary *)

(** ** Ranges *)

Fixpoint strictly_increasing (l : list Z) : bool :=
  match l with
  | a :: ((b :: _) as tl) => (a <? b) && strictly_increasing tl
  | _ => true
  end.

(** The integers of the half-open range [[a, b)], in order. *)
Definition zrange (a b : Z) : list Z :=
  map (fun k => a + Z.of_nat k) (seq 0 (Z.to_nat (b - a))).

(** A range as the consolidator writes it: a list of two numbers. *)
Definition range_to_list (r : Z * Z) : list Z := [fst r; snd r].

Definition expand (rs : list (Z * Z)) : list Z :=
  flat_map (fun r => zrange (fst r) (snd r)) rs.

Definition in_range (x : Z) (r : Z * Z) : Prop := fst r <= x < snd r.

(** [r1] ends before [r2] starts: the two are disjoint and in order. *)
Definition range_before (r1 r2 : Z * Z) : Prop := snd r1 <= fst r2.

(** [r1] ends strictly before [r2] starts: they cannot be merged. *)
Definition range_apart (r1 r2 : Z * Z) : Prop := snd r1 < fst r2.

(** The maximal runs of consecutive numbers of [p :: rest], the current
    run having started at [s]. *)
Fixpoint runs_from (s p : Z) (rest : list Z) : list (Z * Z) :=
  match rest with
  | [] => [(s, p + 1)]
  | n :: rest' =>
      if n - 1 =? p then runs_from s n rest'
      else (s, p + 1) :: runs_from n n rest'
  end.

Definition runs (numbers : list Z) : list (Z * Z) :=
  match numbers with
  | [] => []
  | n :: rest => runs_from n n rest
  end.

(** ** Positions in a file *)

(** The byte at index [i] of [data] is a newline. *)
Definition newline_at (data : list byte) (i : nat) : bool :=
  match nth_error data i with
  | Some b => Byte.eqb b newline
  | None => false
  end.

(** How many indices [i < offset] hold a newline. *)
Definition newlines_before (data : list byte) (offset : Z) : Z :=
  len (filter (newline_at data) (seq 0 (Z.to_nat offset))).

(** [idx] is the index of the last newline before [offset], or [-1] when
    no index before [offset] holds one. *)
Definition nearest_newline (data : list byte) (offset idx : Z) : Prop :=
  (idx = -1
   /\ forall j : nat, Z.of_nat j < offset -> newline_at data j = false)
  \/ (0 <= idx < offset
      /\ newline_at data (Z.to_nat idx) = true
      /\ forall j : nat,
           idx < Z.of_nat j < offset -> newline_at data j = false).

(** ** Paths and rules *)

(** The path segments of a path string, as [pathlib] reads them. *)
Definition segments (p : string) : list string :=
  PurePath.parts (PurePath.parse p).

(** The longest common prefix of two lists of segments. *)
Fixpoint common_prefix (a b : list string) : list string :=
  match a, b with
  | x :: a', y :: b' =>
      if String.eqb x y then x :: common_prefix a' b' else []
  | _, _ => []
  end.

(** The longest common path-prefix of two paths, segment by segment; an
    absolute and a relative path have none. *)
Definition common_path (a b : string) : option string :=
  if Bool.eqb (starts_with_sep a) (starts_with_sep b) then
    Some ((if starts_with_sep a then "/" else "")
          ++ String.concat "/" (common_prefix (segments a) (segments b)))%string
  else None.

(** The rule is its own common path-prefix with the path, and is written
    without a backslash. *)
Definition rule_matches (path rule : string) : bool :=
  match common_path rule path with
  | Some c => String.eqb c rule && negb (str_has "\" rule)
  | None => false
  end.

(** The final extension of a path, without its leading dot. *)
Definition extension_of (file_name : string) : string :=
  str_lstrip "." (PurePath.suffix (PurePath.parse file_name)).

(** No rule is absolute where the path is relative, or the reverse. *)
Definition same_kind (file_name : string) (rules : list string) : Prop :=
  Forall (fun rule => starts_with_sep rule = starts_with_sep file_name) rules.

(** A parsed path: the root is empty, one slash or two, and every part is a
    real segment that holds no slash. *)
Definition well_formed (t : PurePath.t) : Prop :=
  (PurePath.root t = ""%string \/ PurePath.root t = "/"%string
   \/ PurePath.root t = "//"%string)
  /\ Forall (fun x => is_segment x = true /\ str_has "/" x = false)
            (PurePath.parts t).

(** The rule is written as the plain join of its root and its segments: no
    trailing slash, no doubled slash, no [.] segment. *)
Definition canonical_rule (rule : string) : Prop :=
  (PurePath.root (PurePath.parse rule)
   ++ String.concat "/" (segments rule))%string = rule.

(** The first [length a] segments of [b] are those of [a]. *)
Definition segments_prefix (a b : list string) : Prop :=
  exists rest : list string, b = a ++ rest.

(** The rules before the deciding one: of the kind of the path, unmatched. *)
Definition passed_over (file_name : string) (pre : list string) : Prop :=
  same_kind file_name pre
  /\ forall rule, In rule pre -> rule_matches file_name rule = false.

(** ** Discovered files *)

(** No directory above the file has a name that starts with a dot. *)
Definition no_hidden_parent (rel_path : PurePath.t) : bool :=
  forallb (fun parent => negb (str_startswith "." parent))
          (removelast (PurePath.parts rel_path)).

(** The file passes the rules: it matches a not-ignored rule or no ignored
    rule. *)
Definition passes_rules (ignored not_ignored : list string)
    (file_path : string) : bool :=
  existsb (rule_matches file_path) not_ignored
  || negb (existsb (rule_matches file_path) ignored).

Definition source_kept (ignored not_ignored : list string)
    (rel_path : PurePath.t) : bool :=
  no_hidden_parent rel_path
  && passes_rules ignored not_ignored (PurePath.as_posix rel_path).

(** The descriptor of a discovered file: no additions, no diff chunks. *)
Definition found_file (rel_path : PurePath.t) : FileObj.t :=
  FileObj.mk (PurePath.as_posix rel_path) [] [] [].

(** A descriptor without line data. *)
Definition whole_file (file : FileObj.t) : Prop :=
  FileObj.additions file = []
  /\ FileObj.diff_chunks file = []
  /\ FileObj.lines_added file = [].

(** The walk of the tree is never interrupted, and what it yields is
    relative and already parsed. *)
Definition relative_tree (walk : string -> list PurePath.t * option exn)
    : Prop :=
  forall pattern : string,
    snd (walk pattern) = None
    /\ forall rel_path : PurePath.t,
         In rel_path (fst (walk pattern)) ->
         well_formed rel_path /\ PurePath.root rel_path = ""%string.

(** The extensions give patterns that [pathlib] accepts. *)
Definition valid_extensions (extensions : list string) : Prop :=
  Forall (fun ext => invalid_glob ("*." ++ ext)%string = false) extensions.

(** A small tree: two C++ files, one of them below a hidden directory. *)
Definition demo_tree (pattern : string) : list PurePath.t * option exn :=
  if String.eqb pattern "*.cpp" then
    ([PurePath.parse "src/a.cpp"; PurePath.parse ".git/b.cpp";
      PurePath.parse "src/gen/c.cpp"], None)
  else ([], None).

(** Consecutive ranges that cannot be joined: no range starts where the
    range before it ends. *)
Fixpoint run_breaks (rs : list (Z * Z)) : Prop :=
  match rs with
  | r1 :: ((r2 :: _) as tl) => snd r1 <> fst r2 /\ run_breaks tl
  | _ => True
  end.

(** * Proofs *)

(** ** Python list operations *)

Lemma len_app {A : Type} (l1 l2 : list A) : len (l1 ++ l2) = len l1 + len l2.
Proof. unfold len. rewrite length_app. lia. Qed.

Lemma len_cons {A : Type} (x : A) (l : list A) : len (x :: l) = len l + 1.
Proof. unfold len. simpl List.length. lia. Qed.

Lemma len_snoc {A : Type} (l : list A) (x : A) : len (l ++ [x]) = len l + 1.
Proof. unfold len. rewrite length_app. simpl List.length. lia. Qed.

Lemma len_nonneg {A : Type} (l : list A) : 0 <= len l.
Proof. unfold len. lia. Qed.

Lemma py_index_middle {A : Type} (pre : list A) (x : A) (post : list A) :
  py_index (pre ++ x :: post) (len pre) = Ok x.
Proof.
  unfold py_index.
  pose proof (len_nonneg pre) as Hpre.
  destruct (Z.ltb_spec (len pre) 0) as [Hneg | _]; [lia |].
  destruct (Z.ltb_spec (len pre) 0) as [Hneg | _]; [lia |].
  unfold len. rewrite Nat2Z.id.
  rewrite nth_error_app2 by lia.
  now rewrite Nat.sub_diag.
Qed.

Lemma py_slice_to_prefix {A : Type} (pre post : list A) :
  py_slice_to (pre ++ post) (len pre) = pre.
Proof.
  unfold py_slice_to.
  pose proof (len_nonneg pre) as Hpre.
  destruct (Z.ltb_spec (len pre) 0) as [Hneg | _]; [lia |].
  unfold len. rewrite Nat2Z.id.
  rewrite firstn_app, Nat.sub_diag, firstn_all. simpl.
  apply app_nil_r.
Qed.

Lemma append_to_last_snoc (closed : list (list Z)) (r : list Z) (x : Z) :
  append_to_last (closed ++ [r]) x = Ok (closed ++ [r ++ [x]]).
Proof.
  induction closed as [| c closed IH]; [reflexivity |].
  simpl app. simpl append_to_last.
  destruct (closed ++ [r]) as [| r0 tl] eqn:Heq.
  - now destruct closed.
  - rewrite IH. reflexivity.
Qed.

(** ** The range consolidator *)

Lemma for_enumerate_cons {A S : Type} (body : S -> Z -> A -> Exc S)
    (i : Z) (x : A) (xs : list A) (s : S) :
  for_enumerate body i (x :: xs) s
  = (s' <- body s i x ;; for_enumerate body (i + 1) xs s').
Proof. reflexivity. Qed.

Lemma runs_from_cons (s p n : Z) (rest : list Z) :
  runs_from s p (n :: rest)
  = if n - 1 =? p then runs_from s n rest else (s, p + 1) :: runs_from n n rest.
Proof. reflexivity. Qed.

(** Settles the index tests of a loop body: each is decided by [lia]. *)
Ltac decide_eqb :=
  repeat match goal with
  | |- context [Z.eqb ?a ?b] =>
      first
        [ replace (Z.eqb a b) with true by (symmetry; apply Z.eqb_eq; lia)
        | replace (Z.eqb a b) with false by (symmetry; apply Z.eqb_neq; lia) ]
  end.

(** One iteration past the first: the number before [x] is [p], the run that
    started at [s] is open. *)
Lemma consolidate_body_step (pre : list Z) (p x : Z) (rest : list Z)
    (closed : list (list Z)) (s : Z) :
  FileObj.consolidate_body (pre ++ p :: x :: rest) (closed ++ [[s]])
                           (len pre + 1) x
  = let closed' := if x - 1 =? p then closed else closed ++ [[s; p + 1]] in
    let s' := if x - 1 =? p then s else x in
    match rest with
    | [] => Ok (closed' ++ [[s'; x + 1]])
    | _ :: _ => Ok (closed' ++ [[s']])
    end.
Proof.
  unfold FileObj.consolidate_body.
  pose proof (len_nonneg pre) as Hpre.
  replace (len pre + 1 - 1) with (len pre) by lia.
  rewrite py_index_middle, len_app, !len_cons. cbn [bind].
  destruct rest as [| y rest];
    [change (len (@nil Z)) with 0
    | rewrite len_cons; pose proof (len_nonneg rest) as Hrest];
    destruct (Z.eqb_spec (x - 1) p) as [Hrun | Hgap];
    decide_eqb; cbn [bind negb];
    rewrite ?append_to_last_snoc; cbn [bind];
    rewrite ?append_to_last_snoc; reflexivity.
Qed.

(** The loop, entered at an index past the first, with the run that started
    at [s] still open and [p] the number read last, closes the runs as
    [runs_from] does. *)
Lemma consolidate_loop (rest : list Z) :
  forall (x : Z) (pre : list Z) (p : Z) (closed : list (list Z)) (s : Z),
    for_enumerate (FileObj.consolidate_body (pre ++ p :: x :: rest))
                  (len pre + 1) (x :: rest) (closed ++ [[s]])
    = Ok (closed ++ map range_to_list (runs_from s p (x :: rest))).
Proof.
  induction rest as [| y rest IH]; intros x pre p closed s;
    rewrite for_enumerate_cons, consolidate_body_step, runs_from_cons;
    cbv zeta.
  - destruct (x - 1 =? p); cbn [bind]; [reflexivity |].
    now rewrite <- app_assoc.
  - replace (pre ++ p :: x :: y :: rest) with ((pre ++ [p]) ++ x :: y :: rest)
      by now rewrite <- app_assoc.
    rewrite <- (len_snoc pre p).
    destruct (x - 1 =? p); cbn [bind]; rewrite IH; [reflexivity |].
    now rewrite <- app_assoc.
Qed.

(** The consolidator never raises, on any list, and returns the runs. *)
Lemma consolidate_runs (numbers : list Z) :
  FileObj._consolidate_list_to_ranges numbers
  = Ok (map range_to_list (runs numbers)).
Proof.
  unfold FileObj._consolidate_list_to_ranges.
  destruct numbers as [| n [| x rest]]; [reflexivity | reflexivity |].
  rewrite for_enumerate_cons. unfold FileObj.consolidate_body at 1.
  rewrite !len_cons.
  pose proof (len_nonneg rest) as Hrest.
  decide_eqb. cbn [bind].
  apply (consolidate_loop rest x [] n [] n).
Qed.

(** ** Runs of consecutive numbers *)

Lemma zrange_nil (a : Z) : zrange a a = [].
Proof. unfold zrange. now rewrite Z.sub_diag. Qed.

Lemma zrange_snoc (a b : Z) : a <= b -> zrange a (b + 1) = zrange a b ++ [b].
Proof.
  intros Hab. unfold zrange.
  replace (Z.to_nat (b + 1 - a)) with (Z.to_nat (b - a) + 1)%nat by lia.
  rewrite seq_app, map_app. simpl. f_equal. f_equal. lia.
Qed.

Lemma zrange_single (a : Z) : zrange a (a + 1) = [a].
Proof. rewrite zrange_snoc by lia. now rewrite zrange_nil. Qed.

Lemma in_zrange (x a b : Z) : In x (zrange a b) <-> a <= x < b.
Proof.
  unfold zrange. rewrite in_map_iff. split.
  - intros [k [Hk Hin]]. apply in_seq in Hin. lia.
  - intros Hx. exists (Z.to_nat (x - a)). split; [lia |].
    apply in_seq. lia.
Qed.

Lemma in_expand (x : Z) (rs : list (Z * Z)) :
  In x (expand rs) <-> exists r, In r rs /\ in_range x r.
Proof.
  unfold expand, in_range. rewrite in_flat_map.
  split; intros [r [Hr Hx]]; exists r; split; auto; now apply in_zrange.
Qed.

(** Expanding the runs gives the numbers back; no order is needed. *)
Lemma expand_runs_from (rest : list Z) :
  forall s p, s <= p -> expand (runs_from s p rest) = zrange s (p + 1) ++ rest.
Proof.
  induction rest as [| n rest IH]; intros s p Hsp.
  - simpl. unfold expand. simpl. now rewrite !app_nil_r.
  - rewrite runs_from_cons.
    destruct (Z.eqb_spec (n - 1) p) as [Hrun | Hgap].
    + rewrite IH by lia.
      replace n with (p + 1) by lia.
      rewrite (zrange_snoc s (p + 1)) by lia.
      now rewrite <- app_assoc.
    + change (expand ((s, p + 1) :: runs_from n n rest))
        with (zrange s (p + 1) ++ expand (runs_from n n rest)).
      rewrite IH by lia. now rewrite zrange_single.
Qed.

Lemma expand_runs (numbers : list Z) : expand (runs numbers) = numbers.
Proof.
  destruct numbers as [| n rest]; [reflexivity |].
  simpl runs. rewrite expand_runs_from by lia. now rewrite zrange_single.
Qed.

Lemma strictly_increasing_cons (a b : Z) (l : list Z) :
  strictly_increasing (a :: b :: l) = true ->
  a < b /\ strictly_increasing (b :: l) = true.
Proof.
  cbn [strictly_increasing]. intros H.
  apply andb_true_iff in H as [Hab Hl]. split; [lia | exact Hl].
Qed.

(** On strictly increasing numbers every run is non-empty, starts at or
    after [s], and ends strictly before the next one starts. *)
Lemma runs_from_apart (rest : list Z) :
  forall s p,
    s <= p ->
    strictly_increasing (p :: rest) = true ->
    StronglySorted range_apart (runs_from s p rest)
    /\ Forall (fun r => s <= fst r /\ fst r < snd r) (runs_from s p rest).
Proof.
  induction rest as [| n rest IH]; intros s p Hsp Hinc.
  - simpl. split.
    + repeat constructor.
    + repeat constructor; simpl; lia.
  - apply strictly_increasing_cons in Hinc as [Hpn Hinc].
    rewrite runs_from_cons.
    destruct (Z.eqb_spec (n - 1) p) as [Hrun | Hgap].
    + apply IH; [lia | exact Hinc].
    + destruct (IH n n (Z.le_refl n) Hinc) as [Hsorted Hall].
      split.
      * constructor; [exact Hsorted |].
        eapply Forall_impl; [| exact Hall].
        intros r [Hlo _]. unfold range_apart. simpl. lia.
      * constructor; [simpl; lia |].
        eapply Forall_impl; [| exact Hall].
        intros r [Hlo Hne]. lia.
Qed.

Lemma runs_apart (numbers : list Z) :
  strictly_increasing numbers = true ->
  StronglySorted range_apart (runs numbers)
  /\ Forall (fun r => fst r < snd r) (runs numbers).
Proof.
  destruct numbers as [| n rest]; intros Hinc.
  - split; constructor.
  - destruct (runs_from_apart rest n n (Z.le_refl n) Hinc) as [Hs Hall].
    split; [exact Hs |].
    eapply Forall_impl; [| exact Hall]. now intros r [_ Hne].
Qed.

Lemma StronglySorted_weaken {A : Type} (R1 R2 : A -> A -> Prop) (l : list A) :
  (forall a b, R1 a b -> R2 a b) ->
  StronglySorted R1 l -> StronglySorted R2 l.
Proof.
  intros Himp Hs. induction Hs as [| a l Hs IH Hall]; constructor; auto.
  eapply Forall_impl; [| exact Hall]. intros b. apply Himp.
Qed.

(** C1. For every strictly increasing list of integers [S], the range
    consolidator returns two-number lists [[start, end]] that are non-empty
    half-open ranges, pairwise disjoint and in increasing order, whose
    expansion is [S] again and whose union as a set of integers is [S];
    the empty list gives the empty list, [[5]] gives [[[5,6]]],
    [[3,4,5,9]] gives [[[3,6],[9,10]]] and [[1,2,4,5,6,10]] gives
    [[[1,3],[4,7],[10,11]]]. *)
Theorem consolidate_strictly_increasing :
  (forall S : list Z,
      strictly_increasing S = true ->
      exists rs : list (Z * Z),
        FileObj._consolidate_list_to_ranges S = Ok (map range_to_list rs)
        /\ Forall (fun r => fst r < snd r) rs
        /\ StronglySorted range_before rs
        /\ expand rs = S
        /\ (forall x, In x S <-> exists r, In r rs /\ in_range x r))
  /\ FileObj._consolidate_list_to_ranges [] = Ok []
  /\ FileObj._consolidate_list_to_ranges [5] = Ok [[5; 6]]
  /\ FileObj._consolidate_list_to_ranges [3; 4; 5; 9] = Ok [[3; 6]; [9; 10]]
  /\ FileObj._consolidate_list_to_ranges [1; 2; 4; 5; 6; 10]
     = Ok [[1; 3]; [4; 7]; [10; 11]].
Proof.
  split; [| repeat split; reflexivity].
  intros S Hinc. exists (runs S).
  destruct (runs_apart S Hinc) as [Hsorted Hne].
  repeat split.
  - apply consolidate_runs.
  - exact Hne.
  - apply (StronglySorted_weaken range_apart range_before); [| exact Hsorted].
    unfold range_apart, range_before. intros a b. lia.
  - apply expand_runs.
  - intros Hx. apply in_expand. now rewrite expand_runs.
  - intros Hx. apply in_expand in Hx. now rewrite expand_runs in Hx.
Qed.

Lemma consolidate_strictly_increasing_witness :
  strictly_increasing [3; 4; 5; 9] = true
  /\ exists rs : list (Z * Z),
       FileObj._consolidate_list_to_ranges [3; 4; 5; 9]
       = Ok (map range_to_list rs)
       /\ Forall (fun r => fst r < snd r) rs
       /\ StronglySorted range_before rs
       /\ expand rs = [3; 4; 5; 9]
       /\ (forall x, In x [3; 4; 5; 9]
                     <-> exists r, In r rs /\ in_range x r).
Proof.
  split; [reflexivity |].
  apply (proj1 consolidate_strictly_increasing [3; 4; 5; 9]). reflexivity.
Defined.

(** The ranges of a strictly increasing list cannot be merged: between two
    of them at least one integer is missing. *)
Lemma consolidate_minimal (S : list Z) :
  strictly_increasing S = true ->
  exists rs : list (Z * Z),
    FileObj._consolidate_list_to_ranges S = Ok (map range_to_list rs)
    /\ StronglySorted range_apart rs.
Proof.
  intros Hinc. exists (runs S). split; [apply consolidate_runs |].
  apply (runs_apart S Hinc).
Qed.

Lemma range_to_list_length (rs : list (Z * Z)) :
  Forall (fun r => List.length r = 2%nat) (map range_to_list rs).
Proof.
  apply Forall_forall. intros r Hr.
  apply in_map_iff in Hr as [q [<- _]]. reflexivity.
Qed.

(** C9. On every list of integers, also one that is not increasing or that
    repeats a number, the consolidator raises nothing and returns a list of
    two-number lists. *)
Theorem consolidate_total (numbers : list Z) :
  exists result : list (list Z),
    FileObj._consolidate_list_to_ranges numbers = Ok result
    /\ Forall (fun r => List.length r = 2%nat) result.
Proof.
  exists (map range_to_list (runs numbers)). split.
  - apply consolidate_runs.
  - apply range_to_list_length.
Qed.

(** On a list that repeats a number the returned ranges overlap. *)
Example consolidate_duplicate :
  FileObj._consolidate_list_to_ranges [2; 2] = Ok [[2; 3]; [2; 3]].
Proof. reflexivity. Qed.

(** C7, as the specification states it, fails: the list [[3, 1]] is not
    increasing and the consolidator returns on it, and no input that is not
    strictly increasing makes it raise. *)
Lemma consolidate_no_assertion :
  (strictly_increasing [3; 1] = false
   /\ FileObj._consolidate_list_to_ranges [3; 1] = Ok [[3; 4]; [1; 2]])
  /\ ~ exists numbers : list Z,
        strictly_increasing numbers = false
        /\ exists e : exn,
             FileObj._consolidate_list_to_ranges numbers = Raise e.
Proof.
  split; [split; reflexivity |].
  intros [numbers [_ [e He]]].
  rewrite consolidate_runs in He. discriminate He.
Qed.

(** ** The file descriptor *)

(** C6. [range_of_changed_lines] returns the empty list in mode 0 whatever
    [get_ranges] is, [diff_chunks] in mode 1 with [get_ranges], [lines_added]
    in mode 2 with [get_ranges], and the raw [additions] in mode 2 without
    [get_ranges]; [lines_added] of a constructed [FileObj] is the consolidated
    [additions]. *)
Theorem range_of_changed_lines_modes :
  (forall (self : FileObj.t) (get_ranges : bool),
      FileObj.range_of_changed_lines self 0 get_ranges = PyList [])
  /\ (forall self : FileObj.t,
         FileObj.range_of_changed_lines self 1 true
         = of_ranges (FileObj.diff_chunks self))
  /\ (forall self : FileObj.t,
         FileObj.range_of_changed_lines self 2 true
         = of_ranges (FileObj.lines_added self))
  /\ (forall self : FileObj.t,
         FileObj.range_of_changed_lines self 2 false
         = of_lines (FileObj.additions self))
  /\ (forall (name : string) (additions : list Z) (diff_chunks : list (list Z)),
         exists self : FileObj.t,
           FileObj.__init__ name additions diff_chunks = Ok self
           /\ FileObj.additions self = additions
           /\ FileObj.diff_chunks self = diff_chunks
           /\ FileObj._consolidate_list_to_ranges additions
              = Ok (FileObj.lines_added self)).
Proof.
  repeat split; try reflexivity.
  intros name additions diff_chunks.
  unfold FileObj.__init__. rewrite consolidate_runs. cbn [bind].
  eexists. repeat split.
Qed.

(** C10. In mode 1 without [get_ranges], [range_of_changed_lines] returns
    the raw [additions], the same value as in mode 2 without [get_ranges],
    and not [diff_chunks]. *)
Theorem range_of_changed_lines_mode1_lines (self : FileObj.t) :
  FileObj.range_of_changed_lines self 1 false
  = of_lines (FileObj.additions self)
  /\ FileObj.range_of_changed_lines self 1 false
     = FileObj.range_of_changed_lines self 2 false.
Proof. split; reflexivity. Qed.

(** The raw additions and the hunks are different values in general. *)
Example range_of_changed_lines_mode1_not_hunks :
  FileObj.range_of_changed_lines
    (FileObj.mk "a.cpp" [3] [[1; 5]] [[3; 4]]) 1 false
  <> of_ranges [[1; 5]].
Proof. discriminate. Qed.

(** ** The change-relevance predicate *)

Lemma len_pos_iff {A : Type} (l : list A) : (len l >? 0) = true <-> l <> [].
Proof.
  destruct l as [| x l].
  - split; [discriminate | congruence].
  - rewrite len_cons. pose proof (len_nonneg l).
    split; [discriminate | intros _; apply Z.gtb_gt; lia].
Qed.

(** C2. [has_line_changes] is true in mode 0 whatever the arguments are,
    true in mode 1 exactly when [diff_chunks] is not empty, true in mode 2
    exactly when [additions] is not empty, and false otherwise; it is false
    for [(1, [], [1])] and for [(2, [[1,5]], [])]. *)
Theorem has_line_changes_modes :
  (forall (diff_chunks : list (list Z)) (additions : list Z),
      has_line_changes 0 diff_chunks additions = true
      /\ (has_line_changes 1 diff_chunks additions = true <-> diff_chunks <> [])
      /\ (has_line_changes 2 diff_chunks additions = true <-> additions <> []))
  /\ has_line_changes 1 [] [1] = false
  /\ has_line_changes 2 [[1; 5]] [] = false.
Proof.
  split; [| split; reflexivity].
  intros diff_chunks additions. unfold has_line_changes. cbn.
  rewrite !orb_false_r. repeat split; apply len_pos_iff.
Qed.

(** ** The offset translator *)

Lemma firstn_succ {A : Type} (l : list A) :
  forall n : nat,
    firstn (S n) l
    = firstn n l ++ match nth_error l n with Some x => [x] | None => [] end.
Proof.
  induction l as [| a l IH]; intros [| n]; try reflexivity.
  cbn [firstn nth_error app]. now rewrite <- IH.
Qed.

Lemma bytes_count_app (b : byte) (l1 l2 : list byte) :
  bytes_count b (l1 ++ l2) = bytes_count b l1 + bytes_count b l2.
Proof.
  induction l1 as [| x l1 IH]; cbn [app bytes_count]; [reflexivity |].
  rewrite IH. lia.
Qed.

(** [count] on the slice counts the newline indices before the offset. *)
Lemma bytes_count_firstn (data : list byte) (n : nat) :
  bytes_count newline (firstn n data)
  = len (filter (newline_at data) (seq 0 n)).
Proof.
  induction n as [| n IH]; [now rewrite firstn_O |].
  rewrite firstn_succ, bytes_count_app, IH.
  rewrite seq_S, filter_app, len_app. f_equal.
  cbn [filter Nat.add]. unfold newline_at.
  destruct (nth_error data n) as [x |]; [| reflexivity].
  cbn [bytes_count]. now destruct (Byte.eqb x newline).
Qed.

(** [rfind] scans to the last occurrence, or keeps [last]. *)
Lemma bytes_rfind_from_spec (b : byte) (l : list byte) :
  forall i last : Z,
    (bytes_rfind_from b l i last = last
     /\ forall k x, nth_error l k = Some x -> Byte.eqb x b = false)
    \/ (exists k : nat,
          bytes_rfind_from b l i last = i + Z.of_nat k
          /\ (exists x, nth_error l k = Some x /\ Byte.eqb x b = true)
          /\ forall k' x, (k < k')%nat -> nth_error l k' = Some x ->
                          Byte.eqb x b = false).
Proof.
  induction l as [| y l IH]; intros i last.
  - left. split; [reflexivity |]. intros [| k] x; discriminate.
  - cbn [bytes_rfind_from].
    destruct (IH (i + 1) (if Byte.eqb y b then i else last))
      as [[Hr Hnone] | [k [Hr [Hk Hafter]]]].
    + destruct (Byte.eqb y b) eqn:Hy.
      * right. exists 0%nat. rewrite Hr. split; [lia |]. split.
        -- exists y. now split.
        -- intros [| k'] x Hlt Hx; [lia |]. now apply (Hnone k' x).
      * left. split; [exact Hr |].
        intros [| k] x Hx; [injection Hx as <-; exact Hy |].
        now apply (Hnone k x).
    + right. exists (S k). rewrite Hr. split; [lia |]. split; [exact Hk |].
      intros [| k'] x Hlt Hx; [lia |].
      apply (Hafter k' x); [lia | exact Hx].
Qed.

Lemma bytes_rfind_firstn (data : list byte) (n : nat) :
  nearest_newline data (Z.of_nat n) (bytes_rfind newline (firstn n data)).
Proof.
  unfold bytes_rfind, nearest_newline, newline_at.
  destruct (bytes_rfind_from_spec newline (firstn n data) 0 (-1))
    as [[Hr Hnone] | [k [Hr [[x [Hk Hx]] Hafter]]]]; rewrite Hr.
  - left. split; [reflexivity |]. intros j Hj.
    destruct (nth_error data j) as [x |] eqn:Hd; [| reflexivity].
    apply (Hnone j x). rewrite nth_error_firstn.
    destruct (Nat.ltb_spec j n); [exact Hd | lia].
  - right. rewrite nth_error_firstn in Hk.
    destruct (Nat.ltb_spec k n) as [Hkn |]; [| discriminate].
    rewrite Z.add_0_l, Nat2Z.id. split; [lia |]. split.
    + now rewrite Hk.
    + intros j Hj.
      destruct (nth_error data j) as [x' |] eqn:Hd; [| reflexivity].
      apply (Hafter j x'); [lia |]. rewrite nth_error_firstn.
      destruct (Nat.ltb_spec j n); [exact Hd | lia].
Qed.

Lemma nearest_newline_bound (data : list byte) (offset idx : Z) :
  nearest_newline data offset idx -> -1 <= idx < offset \/ idx = -1.
Proof. intros [[-> _] | [H _]]; [right; reflexivity | left; lia]. Qed.

(** C5. For a readable file with content [data] and an offset that is not
    negative, [get_line_cnt_from_cols] returns [(line, column)], both at
    least 1, where [line] is one more than the number of newline bytes
    strictly before the offset and [column] is the offset minus the index of
    the nearest newline before it, that index being [-1] when there is none
    (then [column = offset + 1]); content [ab\ncd] at offset 4 gives [(2, 2)]
    and content [hello] at offset 0 gives [(1, 1)]. *)
Theorem get_line_cnt_from_cols_position :
  (forall (fs : string -> option (list byte)) (file_path : string)
          (data : list byte) (offset : Z),
      fs file_path = Some data ->
      0 <= offset ->
      exists line column idx : Z,
        get_line_cnt_from_cols fs file_path offset = Ok (line, column)
        /\ line = newlines_before data offset + 1
        /\ nearest_newline data offset idx
        /\ column = offset - idx
        /\ (idx = -1 -> column = offset + 1)
        /\ 1 <= line /\ 1 <= column)
  /\ (forall file_path : string,
         get_line_cnt_from_cols
           (fun _ => Some [x61; x62; x0a; x63; x64]) file_path 4
         = Ok (2, 2))
  /\ (forall file_path : string,
         get_line_cnt_from_cols
           (fun _ => Some [x68; x65; x6c; x6c; x6f]) file_path 0
         = Ok (1, 1)).
Proof.
  split; [| split; reflexivity].
  intros fs file_path data offset Hread Hoff.
  unfold get_line_cnt_from_cols, read_bytes. rewrite Hread. cbn [bind].
  unfold py_slice_to.
  destruct (Z.ltb_spec offset 0) as [Hneg | _]; [lia |].
  pose proof (bytes_rfind_firstn data (Z.to_nat offset)) as Hidx.
  rewrite Z2Nat.id in Hidx by exact Hoff.
  exists (bytes_count newline (firstn (Z.to_nat offset) data) + 1),
         (offset - bytes_rfind newline (firstn (Z.to_nat offset) data)),
         (bytes_rfind newline (firstn (Z.to_nat offset) data)).
  rewrite bytes_count_firstn.
  pose proof (len_nonneg
                (filter (newline_at data) (seq 0 (Z.to_nat offset)))) as Hcnt.
  repeat split; try exact Hidx; try lia.
  destruct (nearest_newline_bound _ _ _ Hidx); lia.
Qed.

Lemma get_line_cnt_from_cols_position_witness :
  exists line column idx : Z,
    get_line_cnt_from_cols (fun _ => Some [x61; x62; x0a; x63; x64])
                           "ab.txt" 4
    = Ok (line, column)
    /\ line = newlines_before [x61; x62; x0a; x63; x64] 4 + 1
    /\ nearest_newline [x61; x62; x0a; x63; x64] 4 idx
    /\ column = 4 - idx
    /\ (idx = -1 -> column = 4 + 1)
    /\ 1 <= line /\ 1 <= column.
Proof.
  apply (proj1 get_line_cnt_from_cols_position
               (fun _ => Some [x61; x62; x0a; x63; x64]) "ab.txt"%string).
  - reflexivity.
  - lia.
Defined.

(** ** Strings *)

Section StrLemmas.
Local Open Scope string_scope.

Lemma str_split_not_nil (c : ascii) (s : string) : str_split c s <> [].
Proof.
  destruct s as [| a s]; [discriminate |]. cbn [str_split].
  destruct (Ascii.eqb a c); [discriminate |].
  destruct (str_split c s); discriminate.
Qed.

Lemma str_has_app (c : ascii) (a b : string) :
  str_has c (a ++ b) = str_has c a || str_has c b.
Proof.
  induction a as [| x a IH]; [reflexivity |].
  cbn [append str_has]. now rewrite IH, orb_assoc.
Qed.

(** No segment of a split holds the separator. *)
Lemma str_split_no_sep (c : ascii) (s : string) :
  Forall (fun x => str_has c x = false) (str_split c s).
Proof.
  induction s as [| a s IH]; [repeat constructor |].
  cbn [str_split]. destruct (Ascii.eqb a c) eqn:Hac.
  - constructor; [reflexivity | exact IH].
  - destruct (str_split c s) as [| h t];
      [repeat constructor; cbn; now rewrite Hac |].
    inversion IH as [| ? ? Hh Ht]; subst.
    constructor; [| exact Ht]. cbn [str_has]. now rewrite Hac, Hh.
Qed.

(** A character absent from a string is absent from its segments. *)
Lemma str_split_no_char (d c : ascii) (s : string) :
  str_has d s = false ->
  Forall (fun x => str_has d x = false) (str_split c s).
Proof.
  induction s as [| a s IH]; intros Hd; [repeat constructor |].
  cbn [str_has] in Hd. apply orb_false_iff in Hd as [Had Hs].
  specialize (IH Hs). cbn [str_split]. destruct (Ascii.eqb a c).
  - constructor; [reflexivity | exact IH].
  - destruct (str_split c s) as [| h t];
      [repeat constructor; cbn; now rewrite Had |].
    inversion IH as [| ? ? Hh Ht]; subst.
    constructor; [| exact Ht]. cbn [str_has]. now rewrite Had, Hh.
Qed.

Lemma str_split_whole (c : ascii) (x : string) :
  str_has c x = false -> str_split c x = [x].
Proof.
  induction x as [| a x IH]; intros Hx; [reflexivity |].
  cbn [str_has] in Hx. apply orb_false_iff in Hx as [Hac Hx].
  cbn [str_split]. rewrite Hac, (IH Hx). reflexivity.
Qed.

(** Splitting at a separator splits the two sides. *)
Lemma str_split_app (c : ascii) (a b : string) :
  str_split c (a ++ String c b) = (str_split c a ++ str_split c b)%list.
Proof.
  induction a as [| x a IH].
  - cbn [append str_split app]. now rewrite Ascii.eqb_refl.
  - cbn [append str_split]. rewrite IH.
    destruct (Ascii.eqb x c); [reflexivity |].
    pose proof (str_split_not_nil c a) as Hne.
    destruct (str_split c a) as [| h t]; [contradiction | reflexivity].
Qed.

(** Joining segments and splitting again gives the segments back. *)
Lemma str_split_concat (c : ascii) (l : list string) :
  l <> [] ->
  Forall (fun x => str_has c x = false) l ->
  str_split c (String.concat (String c "") l) = l.
Proof.
  induction l as [| x l IH]; intros Hne Hall; [contradiction |].
  inversion Hall as [| ? ? Hx Hl]; subst.
  destruct l as [| y l].
  - cbn [concat]. now apply str_split_whole.
  - change (concat (String c "") (x :: y :: l))
      with (x ++ String c (concat (String c "") (y :: l))).
    rewrite str_split_app, (str_split_whole c x Hx), IH;
      [reflexivity | discriminate | exact Hl].
Qed.

Lemma str_has_concat (d : ascii) (sep : string) (l : list string) :
  str_has d sep = false ->
  Forall (fun x => str_has d x = false) l ->
  str_has d (String.concat sep l) = false.
Proof.
  intros Hsep. induction l as [| x l IH]; intros Hall; [reflexivity |].
  inversion Hall as [| ? ? Hx Hl]; subst.
  destruct l as [| y l]; [exact Hx |].
  change (concat sep (x :: y :: l)) with (x ++ sep ++ concat sep (y :: l)).
  now rewrite !str_has_app, Hx, Hsep, (IH Hl).
Qed.

Lemma str_has_drop (d : ascii) (n : nat) :
  forall s, str_has d s = false -> str_has d (str_drop n s) = false.
Proof.
  induction n as [| n IH]; intros s Hs; [exact Hs |].
  destruct s as [| a s]; [reflexivity |].
  cbn [str_has] in Hs. apply orb_false_iff in Hs as [_ Hs].
  now apply IH.
Qed.

Lemma str_replace_absent (a b : ascii) (s : string) :
  str_has a s = false -> str_replace a b s = s.
Proof.
  induction s as [| x s IH]; intros Hs; [reflexivity |].
  cbn [str_has] in Hs. apply orb_false_iff in Hs as [Hxa Hs].
  cbn [str_replace]. now rewrite Hxa, (IH Hs).
Qed.

Lemma str_replace_removes (a b : ascii) (s : string) :
  a <> b -> str_has a (str_replace a b s) = false.
Proof.
  intros Hab. induction s as [| x s IH]; [reflexivity |].
  cbn [str_replace str_has]. rewrite IH, orb_false_r.
  destruct (Ascii.eqb_spec x a) as [_ | Hxa].
  - apply Ascii.eqb_neq. congruence.
  - now apply Ascii.eqb_neq.
Qed.

Lemma str_in_iff (x : string) (l : list string) :
  str_in x l = true <-> In x l.
Proof.
  unfold str_in. rewrite existsb_exists. split.
  - intros [y [Hy Heq]]. apply String.eqb_eq in Heq. now subst.
  - intros Hx. exists x. split; [exact Hx | apply String.eqb_refl].
Qed.
End StrLemmas.

(** ** Parsed paths *)

Section PathLemmas.
Local Open Scope string_scope.

Lemma filter_all {A : Type} (f : A -> bool) (l : list A) :
  Forall (fun x => f x = true) l -> filter f l = l.
Proof.
  induction 1 as [| x l Hx _ IH]; [reflexivity |].
  cbn [filter]. now rewrite Hx, IH.
Qed.

Lemma substring_0_0 (s : string) : substring 0 0 s = "".
Proof. now destruct s. Qed.

(** The root is empty exactly on a relative path; the rest is a suffix. *)
Lemma splitroot_cases (p : string) :
  (PurePath.splitroot p = ("", p) /\ starts_with_sep p = false)
  \/ (exists (r : string) (n : nat),
        PurePath.splitroot p = (r, str_drop n p)
        /\ (r = "/" \/ r = "//")
        /\ starts_with_sep p = true).
Proof.
  unfold PurePath.splitroot, starts_with_sep.
  destruct p as [| c1 p]; [left; split; reflexivity |].
  cbn [substring]. rewrite substring_0_0. cbn [String.eqb].
  destruct (Ascii.eqb_spec c1 "/") as [-> | _]; cbn [negb];
    [| left; split; reflexivity].
  right.
  destruct p as [| c2 p]; [exists "/", 1%nat; auto |].
  cbn [substring]. rewrite !substring_0_0. cbn [String.eqb].
  destruct (Ascii.eqb_spec c2 "/") as [-> | _]; cbn [negb orb];
    [| exists "/", 1%nat; auto].
  destruct p as [| c3 p]; [exists "//", 2%nat; auto |].
  cbn [substring]. rewrite !substring_0_0. cbn [String.eqb].
  destruct (Ascii.eqb_spec c3 "/") as [-> | _].
  - exists "/", 1%nat. auto.
  - exists "//", 2%nat. auto.
Qed.

Lemma parse_well_formed (p : string) : well_formed (PurePath.parse p).
Proof.
  unfold well_formed, PurePath.parse.
  destruct (p =? "") eqn:Hp; [split; [now left | constructor] |].
  assert (Hparts : forall rel,
             Forall (fun x => is_segment x = true /\ str_has "/" x = false)
                    (filter PurePath.is_part (str_split "/" rel))).
  { intros rel. apply Forall_forall. intros x Hx.
    apply filter_In in Hx as [Hin Hseg]. split; [exact Hseg |].
    pose proof (str_split_no_sep "/" rel) as Hall.
    rewrite Forall_forall in Hall. now apply Hall. }
  destruct (splitroot_cases p) as [[-> _] | [r [n [-> [Hr _]]]]];
    cbn [PurePath.root PurePath.parts]; split; auto.
Qed.

Lemma parse_root (p : string) :
  starts_with_sep p = negb (PurePath.root (PurePath.parse p) =? "").
Proof.
  unfold PurePath.parse.
  destruct (p =? "") eqn:Hp.
  - apply String.eqb_eq in Hp. now subst.
  - destruct (splitroot_cases p) as [[-> Hs] | [r [n [-> [Hr Hs]]]]];
      cbn [PurePath.root]; rewrite Hs; [reflexivity |].
    now destruct Hr as [-> | ->].
Qed.

(** A character absent from a path is absent from its segments. *)
Lemma segments_no_char (d : ascii) (p : string) :
  str_has d p = false -> Forall (fun x => str_has d x = false) (segments p).
Proof.
  intros Hd. unfold segments, PurePath.parse.
  destruct (p =? ""); [constructor |].
  assert (Hrel : forall rel,
             str_has d rel = false ->
             Forall (fun x => str_has d x = false)
                    (filter PurePath.is_part (str_split "/" rel))).
  { intros rel Hrel. apply Forall_forall. intros x Hx.
    apply filter_In in Hx as [Hin _].
    pose proof (str_split_no_char d "/" rel Hrel) as Hall.
    rewrite Forall_forall in Hall. now apply Hall. }
  destruct (splitroot_cases p) as [[-> _] | [r [n [-> _]]]];
    cbn [PurePath.parts]; apply Hrel; [exact Hd |].
  now apply str_has_drop.
Qed.

Lemma concat_cons_head (x : string) (l : list string) :
  exists tl, String.concat "/" (x :: l) = x ++ tl.
Proof.
  destruct l as [| y l].
  - exists "". cbn [concat]. clear. induction x; cbn; congruence.
  - exists ("/" ++ String.concat "/" (y :: l)). reflexivity.
Qed.

(** Splitting the normalised path again gives its parts. *)
Lemma as_posix_segments (t : PurePath.t) :
  well_formed t ->
  filter is_segment (str_split "/" (PurePath.as_posix t)) = PurePath.parts t.
Proof.
  destruct t as [root parts]. intros [Hroot Hparts].
  cbn [PurePath.root PurePath.parts] in *. unfold PurePath.as_posix.
  cbn [PurePath.root PurePath.parts].
  destruct parts as [| x l].
  - destruct Hroot as [-> | [-> | ->]]; reflexivity.
  - assert (Hsplit : str_split "/" (String.concat "/" (x :: l)) = x :: l).
    { apply str_split_concat; [discriminate |].
      eapply Forall_impl; [| exact Hparts]. now intros y [_ Hy]. }
    assert (Hfilter : filter is_segment (x :: l) = x :: l).
    { apply filter_all. eapply Forall_impl; [| exact Hparts].
      now intros y [Hy _]. }
    destruct (concat_cons_head x l) as [tl Htl].
    inversion Hparts as [| ? ? [Hx _] _]; subst.
    destruct x as [| a x]; [discriminate Hx |].
    destruct Hroot as [-> | [-> | ->]].
    + cbn [append]. rewrite Htl at 1. cbn [append String.eqb].
      now rewrite Hsplit.
    + cbn [append String.eqb].
      change (String "/" (concat "/" (String a x :: l)))
        with ("" ++ String "/" (concat "/" (String a x :: l))).
      rewrite str_split_app, Hsplit. exact Hfilter.
    + cbn [append String.eqb].
      change (String "/" (String "/" (concat "/" (String a x :: l))))
        with ("" ++ String "/"
                 ("" ++ String "/" (concat "/" (String a x :: l)))).
      rewrite !str_split_app, Hsplit. exact Hfilter.
Qed.

(** The normalised path starts with a slash exactly when it has a root. *)
Lemma as_posix_root (t : PurePath.t) :
  well_formed t ->
  starts_with_sep (PurePath.as_posix t) = negb (PurePath.root t =? "").
Proof.
  destruct t as [root parts]. intros [Hroot Hparts].
  cbn [PurePath.root PurePath.parts] in *.
  unfold PurePath.as_posix, starts_with_sep.
  cbn [PurePath.root PurePath.parts].
  destruct Hroot as [-> | [-> | ->]];
    [| cbn [append String.eqb substring]; now rewrite ?substring_0_0 ..].
  cbn [append].
  destruct parts as [| x l]; [reflexivity |].
  destruct (concat_cons_head x l) as [tl ->].
  inversion Hparts as [| ? ? [Hx Hslash] _]; subst.
  destruct x as [| a x]; [discriminate Hx |].
  cbn [str_has] in Hslash. apply orb_false_iff in Hslash as [Ha _].
  cbn [append String.eqb substring]. rewrite ?substring_0_0.
  cbn [String.eqb]. now rewrite Ha.
Qed.

Lemma as_posix_parse_abs (p : string) :
  starts_with_sep (PurePath.as_posix (PurePath.parse p)) = starts_with_sep p.
Proof.
  rewrite as_posix_root by apply parse_well_formed.
  symmetry. apply parse_root.
Qed.

Lemma as_posix_parse_segments (p : string) :
  filter is_segment (str_split "/" (PurePath.as_posix (PurePath.parse p)))
  = segments p.
Proof. apply as_posix_segments, parse_well_formed. Qed.
End PathLemmas.

(** ** The common path *)

Section CommonPath.
Local Open Scope string_scope.

Lemma string_compare_refl (x : string) : String.compare x x = Eq.
Proof.
  pose proof (String.compare_antisym x x) as H.
  destruct (String.compare x x); [reflexivity | discriminate ..].
Qed.

Lemma string_compare_eqb (x y : string) :
  String.compare x y = Eq <-> String.eqb x y = true.
Proof.
  rewrite String.eqb_eq. split.
  - apply String.compare_eq_iff.
  - intros ->. apply string_compare_refl.
Qed.

Lemma segs_compare_antisym (a : list string) :
  forall b, segs_compare a b = CompOpp (segs_compare b a).
Proof.
  induction a as [| x a IH]; intros [| y b]; try reflexivity.
  cbn [segs_compare]. rewrite (String.compare_antisym y x), IH.
  now destruct (String.compare x y), (segs_compare b a).
Qed.

Lemma segs_compare_eq (a : list string) :
  forall b, segs_compare a b = Eq -> a = b.
Proof.
  induction a as [| x a IH]; intros [| y b]; try discriminate;
    [reflexivity |].
  cbn [segs_compare].
  destruct (String.compare x y) eqn:Hxy; try discriminate.
  intros Hab. apply String.compare_eq_iff in Hxy. subst.
  f_equal. now apply IH.
Qed.

Lemma segs_ltb_asym (a b : list string) :
  segs_ltb a b = true -> segs_ltb b a = false.
Proof.
  unfold segs_ltb. rewrite (segs_compare_antisym b a).
  now destruct (segs_compare a b).
Qed.

Lemma segs_ltb_total (a b : list string) :
  segs_ltb a b = false -> segs_ltb b a = false -> a = b.
Proof.
  unfold segs_ltb. rewrite (segs_compare_antisym b a).
  destruct (segs_compare a b) eqn:Hab; try discriminate.
  intros _ _. now apply segs_compare_eq.
Qed.

Lemma segs_ltb_cons (x : string) (a b : list string) :
  segs_ltb (x :: a) (x :: b) = segs_ltb a b.
Proof.
  unfold segs_ltb. cbn [segs_compare]. now rewrite string_compare_refl.
Qed.

Lemma common_prefix_comm (a : list string) :
  forall b, common_prefix a b = common_prefix b a.
Proof.
  induction a as [| x a IH]; intros [| y b]; try reflexivity.
  cbn [common_prefix]. rewrite (String.eqb_sym y x).
  destruct (String.eqb_spec x y) as [-> | _]; [| reflexivity].
  now rewrite IH.
Qed.

Lemma common_prefix_same (a : list string) : common_prefix a a = a.
Proof.
  induction a as [| x a IH]; [reflexivity |].
  cbn [common_prefix]. now rewrite String.eqb_refl, IH.
Qed.

Lemma common_prefix_incl (a : list string) :
  forall b x, In x (common_prefix a b) -> In x a.
Proof.
  induction a as [| y a IH]; intros [| z b] x Hx; try contradiction.
  cbn [common_prefix] in Hx. destruct (String.eqb y z); [| contradiction].
  destruct Hx as [-> | Hx]; [now left | right; eauto].
Qed.

(** The loop of [commonpath] on a smaller-or-equal [s1]: [s2[i]] is always
    in range and the result is the longest common prefix. *)
Lemma commonpath_loop_prefix (rest1 : list string) :
  forall pre rest2 : list string,
    segs_ltb rest2 rest1 = false ->
    commonpath_loop (pre ++ rest1) (pre ++ rest2) (len pre) rest1
    = Ok (pre ++ common_prefix rest1 rest2)%list.
Proof.
  induction rest1 as [| c rest1 IH]; intros pre rest2 Hle.
  - reflexivity.
  - destruct rest2 as [| x rest2]; [discriminate Hle |].
    cbn [commonpath_loop common_prefix].
    rewrite py_index_middle. cbn [bind].
    destruct (String.eqb_spec c x) as [-> | Hcx]; cbn [negb].
    + rewrite segs_ltb_cons in Hle.
      replace (pre ++ x :: rest1)%list with ((pre ++ [x]) ++ rest1)%list
        by now rewrite <- app_assoc.
      replace (pre ++ x :: rest2)%list with ((pre ++ [x]) ++ rest2)%list
        by now rewrite <- app_assoc.
      rewrite <- (len_snoc pre x).
      rewrite (IH _ _ Hle), <- app_assoc. reflexivity.
    + now rewrite py_slice_to_prefix, app_nil_r.
Qed.

Lemma commonpath_loop_ordered (s1 s2 : list string) :
  segs_ltb s2 s1 = false ->
  commonpath_loop s1 s2 0 s1 = Ok (common_prefix s1 s2).
Proof. intros Hle. apply (commonpath_loop_prefix s1 [] s2 Hle). Qed.

Lemma py_min_two (sa sb : list string) :
  py_min [sa; sb] = Ok (if segs_ltb sb sa then sb else sa).
Proof. reflexivity. Qed.

Lemma py_max_two (sa sb : list string) :
  py_max [sa; sb] = Ok (if segs_ltb sa sb then sb else sa).
Proof. reflexivity. Qed.

Lemma nodup_two (x y : bool) :
  nodup bool_dec [x; y] = if Bool.eqb x y then [y] else [x; y].
Proof. now destruct x, y. Qed.

(** Comparing the least with the greatest of two lists of segments finds
    their longest common prefix. *)
Lemma commonpath_min_max (sa sb : list string) :
  let s1 := if segs_ltb sb sa then sb else sa in
  let s2 := if segs_ltb sa sb then sb else sa in
  commonpath_loop s1 s2 0 s1 = Ok (common_prefix sa sb).
Proof.
  cbv zeta. destruct (segs_ltb sb sa) eqn:Hba.
  - pose proof (segs_ltb_asym sb sa Hba) as Hab. rewrite Hab.
    rewrite (commonpath_loop_ordered sb sa Hab).
    now rewrite common_prefix_comm.
  - destruct (segs_ltb sa sb) eqn:Hab.
    + apply (commonpath_loop_ordered sa sb Hba).
    + pose proof (segs_ltb_total sa sb Hab Hba) as Heq. subst sb.
      apply (commonpath_loop_ordered sa sa Hab).
Qed.

(** [commonpath] of two paths: an error when one is absolute and the other
    is not, else the joined common prefix of their segments. *)
Lemma commonpath_two (a b : string) :
  commonpath [a; b]
  = if Bool.eqb (starts_with_sep a) (starts_with_sep b) then
      Ok ((if starts_with_sep a then "/" else "")
          ++ String.concat "/"
               (common_prefix (filter is_segment (str_split "/" a))
                              (filter is_segment (str_split "/" b))))
    else Raise ValueError.
Proof.
  unfold commonpath. cbn [map]. rewrite nodup_two, py_min_two, py_max_two.
  destruct (Bool.eqb (starts_with_sep a) (starts_with_sep b)) eqn:Hab;
    [| reflexivity].
  apply Bool.eqb_prop in Hab. cbn [bind].
  rewrite commonpath_min_max. cbn [bind]. now rewrite Hab.
Qed.

(** What the filter computes for one rule. *)
Lemma commonpath_rule (rule path : string) :
  commonpath [PurePath.as_posix (PurePath.parse rule);
              PurePath.as_posix (PurePath.parse path)]
  = match common_path rule path with
    | Some c => Ok c
    | None => Raise ValueError
    end.
Proof.
  rewrite commonpath_two, !as_posix_parse_abs, !as_posix_parse_segments.
  unfold common_path.
  now destruct (Bool.eqb (starts_with_sep rule) (starts_with_sep path)).
Qed.
End CommonPath.

(** ** The inclusion filter *)

Section InclusionFilter.
Local Open Scope string_scope.

Lemma common_path_no_backslash (rule path c : string) :
  common_path rule path = Some c ->
  str_has "\" rule = false ->
  str_has "\" c = false.
Proof.
  unfold common_path.
  destruct (Bool.eqb (starts_with_sep rule) (starts_with_sep path));
    [| discriminate].
  intros [= <-] Hrule. rewrite str_has_app.
  apply orb_false_iff. split; [now destruct (starts_with_sep rule) |].
  apply str_has_concat; [reflexivity |].
  pose proof (segments_no_char "\" rule Hrule) as Hsegs.
  rewrite Forall_forall in *. intros x Hx.
  apply Hsegs. eapply common_prefix_incl, Hx.
Qed.

(** The test of the filter, [result.replace("\\", "/") == path]. *)
Lemma replaced_eqb (rule path c : string) :
  common_path rule path = Some c ->
  String.eqb (str_replace "\" "/" c) rule
  = String.eqb c rule && negb (str_has "\" rule).
Proof.
  intros Hc. destruct (str_has "\" rule) eqn:Hrule; cbn [negb].
  - rewrite andb_false_r. apply String.eqb_neq. intros Heq.
    rewrite <- Heq, str_replace_removes in Hrule; discriminate.
  - rewrite andb_true_r.
    now rewrite (str_replace_absent _ _ _
                   (common_path_no_backslash _ _ _ Hc Hrule)).
Qed.

Lemma is_file_in_list_cons (rule : string) (rules : list string)
    (file_name prompt : string) :
  is_file_in_list (rule :: rules) file_name prompt
  = match common_path rule file_name with
    | None => Raise ValueError
    | Some _ =>
        if rule_matches file_name rule then Ok true
        else is_file_in_list rules file_name prompt
    end.
Proof.
  cbn [is_file_in_list]. rewrite commonpath_rule. unfold rule_matches.
  destruct (common_path rule file_name) as [c |] eqn:Hc; [| reflexivity].
  cbn [bind]. now rewrite (replaced_eqb _ _ _ Hc).
Qed.

Lemma same_kind_common_path (rule file_name : string) :
  starts_with_sep rule = starts_with_sep file_name ->
  exists c, common_path rule file_name = Some c.
Proof.
  intros Hk. unfold common_path. rewrite Hk, Bool.eqb_reflx. eauto.
Qed.

(** Where no rule mixes an absolute with a relative path, the filter
    raises nothing and tells whether some rule matches. *)
Lemma is_file_in_list_same_kind (rules : list string)
    (file_name prompt : string) :
  same_kind file_name rules ->
  is_file_in_list rules file_name prompt
  = Ok (existsb (rule_matches file_name) rules).
Proof.
  induction 1 as [| rule rules Hk _ IH]; [reflexivity |].
  rewrite is_file_in_list_cons.
  destruct (same_kind_common_path _ _ Hk) as [c ->].
  cbn [existsb]. now destruct (rule_matches file_name rule).
Qed.

Lemma is_source_or_ignored_same_kind
    (file_name : string) (ext_list ignored not_ignored : list string) :
  same_kind file_name not_ignored ->
  same_kind file_name ignored ->
  is_source_or_ignored file_name ext_list ignored not_ignored
  = Ok (str_in (extension_of file_name) ext_list
        && (existsb (rule_matches file_name) not_ignored
            || negb (existsb (rule_matches file_name) ignored))).
Proof.
  intros Hnot Hign. unfold is_source_or_ignored. fold (extension_of file_name).
  destruct (str_in (extension_of file_name) ext_list); [| reflexivity].
  rewrite (is_file_in_list_same_kind _ _ _ Hnot). cbn [bind andb].
  destruct (existsb (rule_matches file_name) not_ignored); [reflexivity |].
  now rewrite (is_file_in_list_same_kind _ _ _ Hign).
Qed.
End InclusionFilter.

Section InclusionClaims.
Local Open Scope string_scope.

Lemma existsb_rule_matches (file_name : string) (rules : list string) :
  existsb (rule_matches file_name) rules = true
  <-> exists rule, In rule rules /\ rule_matches file_name rule = true.
Proof. apply existsb_exists. Qed.

Lemma existsb_rule_matches_none (file_name : string) (rules : list string) :
  existsb (rule_matches file_name) rules = false
  <-> forall rule, In rule rules -> rule_matches file_name rule = false.
Proof.
  rewrite <- not_true_iff_false, existsb_rule_matches. split.
  - intros Hnone rule Hin. apply not_true_iff_false. intros Hm.
    apply Hnone. now exists rule.
  - intros Hall [rule [Hin Hm]]. rewrite (Hall rule Hin) in Hm.
    discriminate.
Qed.

(** A rule that is absolute where the path is relative, or the reverse,
    makes the filter raise as soon as it is reached. *)
Lemma is_file_in_list_mixed (rule : string) (rules : list string)
    (file_name prompt : string) :
  starts_with_sep rule <> starts_with_sep file_name ->
  is_file_in_list (rule :: rules) file_name prompt = Raise ValueError.
Proof.
  intros Hk. rewrite is_file_in_list_cons. unfold common_path.
  destruct (Bool.eqb (starts_with_sep rule) (starts_with_sep file_name))
    eqn:Heq; [| reflexivity].
  now apply Bool.eqb_prop in Heq.
Qed.

(** One rule: the filter answers true exactly when the rule is its own
    common path-prefix with the path and holds no backslash. *)
Lemma is_file_in_list_single (rule path prompt : string) :
  is_file_in_list [rule] path prompt = Ok true
  <-> (common_path rule path = Some rule /\ str_has "\" rule = false).
Proof.
  rewrite is_file_in_list_cons. unfold rule_matches.
  destruct (common_path rule path) as [c |]; cbn [is_file_in_list].
  - destruct (String.eqb_spec c rule) as [-> | Hne];
      destruct (str_has "\" rule); cbn [andb negb]; split;
      try discriminate; try tauto;
      try (intros [[= Hc] _]; contradiction);
      try (intros [_ Hb]; discriminate Hb).
  - split; [discriminate | intros [Hc _]; discriminate Hc].
Qed.

Lemma common_prefix_whole (a : list string) :
  forall b, common_prefix a b = a <-> exists rest, b = (a ++ rest)%list.
Proof.
  induction a as [| x a IH]; intros b.
  - split; [now exists b | reflexivity].
  - destruct b as [| y b]; cbn [common_prefix].
    + split; [discriminate | intros [rest Hb]; discriminate Hb].
    + destruct (String.eqb_spec x y) as [-> | Hxy]; split.
      * intros [= Hp]. apply IH in Hp as [rest ->]. now exists rest.
      * intros [rest [= ->]]. f_equal. apply IH. now exists rest.
      * discriminate.
      * intros [rest [= Hy _]]. congruence.
Qed.

(** Joining is one-to-one on lists of real segments. *)
Lemma concat_segments_inj (a b : list string) :
  Forall (fun x => is_segment x = true /\ str_has "/" x = false) a ->
  Forall (fun x => is_segment x = true /\ str_has "/" x = false) b ->
  String.concat "/" a = String.concat "/" b ->
  a = b.
Proof.
  intros Ha Hb Heq.
  assert (Hne : forall x l,
             Forall (fun x => is_segment x = true /\ str_has "/" x = false)
                    (x :: l) ->
             String.concat "/" (x :: l) <> "").
  { intros x l Hx. inversion Hx as [| ? ? [Hseg _] _]; subst.
    destruct (concat_cons_head x l) as [tl ->].
    destruct x; [discriminate Hseg | discriminate]. }
  assert (Hsplit : forall l,
             l <> [] ->
             Forall (fun x => is_segment x = true /\ str_has "/" x = false) l ->
             str_split "/" (String.concat "/" l) = l).
  { intros l Hl Hall. apply str_split_concat; [exact Hl |].
    eapply Forall_impl; [| exact Hall]. now intros x [_ Hx]. }
  destruct a as [| x a], b as [| y b].
  - reflexivity.
  - symmetry in Heq. now apply Hne in Heq.
  - now apply Hne in Heq.
  - rewrite <- (Hsplit (x :: a)), <- (Hsplit (y :: b)), Heq;
      [reflexivity | discriminate | exact Hb | discriminate | exact Ha].
Qed.

(** Segment boundaries: a relative rule written in normal form, without a
    backslash, matches a relative path exactly when the segments of the
    rule are the first segments of the path. *)
Lemma rule_matches_segment_prefix (rule path prompt : string) :
  starts_with_sep rule = false ->
  starts_with_sep path = false ->
  String.concat "/" (segments rule) = rule ->
  str_has "\" rule = false ->
  is_file_in_list [rule] path prompt = Ok true
  <-> exists rest, segments path = (segments rule ++ rest)%list.
Proof.
  intros Hrule Hpath Hnorm Hback.
  rewrite is_file_in_list_single, <- common_prefix_whole.
  unfold common_path. rewrite Hrule, Hpath. cbn [Bool.eqb append].
  pose proof (parse_well_formed rule) as [_ Hwf]. fold (segments rule) in Hwf.
  split.
  - intros [[= Hc] _]. rewrite <- Hnorm in Hc at 2.
    apply concat_segments_inj in Hc; [exact Hc | | exact Hwf].
    rewrite Forall_forall in *. intros x Hx.
    apply Hwf. eapply common_prefix_incl, Hx.
  - intros ->. now rewrite Hnorm.
Qed.

Example rule_matches_segment_prefix_lib :
  segments "lib" = ["lib"]
  /\ segments "lib/foo.cpp" = ["lib"; "foo.cpp"]
  /\ segments "libfoo.cpp" = ["libfoo.cpp"].
Proof. repeat split; reflexivity. Qed.

(** C4, as the specification states it, fails: the rule [a\b] is its own
    common path-prefix with the path [a\b/c.cpp], and is not matched. *)
Lemma rule_with_backslash_unmatched :
  common_path "a\b" "a\b/c.cpp" = Some "a\b"
  /\ is_file_in_list ["a\b"] "a\b/c.cpp" "ignored" = Ok false.
Proof. split; reflexivity. Qed.

(** C4, amended. A rule matches a path exactly when the rule holds no
    backslash and the longest common path-prefix of the two, computed
    segment by segment, is the rule itself; the rule [lib] matches
    [lib/foo.cpp] and not [libfoo.cpp], so [libfoo.cpp] with
    [ignored = ["lib"]] is included. *)
Theorem rule_matching_by_segments :
  (forall rule path prompt : string,
      is_file_in_list [rule] path prompt = Ok true
      <-> (common_path rule path = Some rule
           /\ str_has "\" rule = false))
  /\ is_file_in_list ["lib"] "lib/foo.cpp" "ignored" = Ok true
  /\ is_file_in_list ["lib"] "libfoo.cpp" "ignored" = Ok false
  /\ is_source_or_ignored "libfoo.cpp" ["cpp"] ["lib"] [] = Ok true.
Proof.
  split; [exact is_file_in_list_single | repeat split; reflexivity].
Qed.

(** The defect of C8 at work: [a.cpp] has an allowed extension and the
    ignored list is empty, and the filter raises on the absolute
    not-ignored rule instead of answering. *)
Example is_source_or_ignored_mixed_rule :
  In (extension_of "a.cpp") ["cpp"]
  /\ (forall rule, In rule [] -> rule_matches "a.cpp" rule = false)
  /\ is_source_or_ignored "a.cpp" ["cpp"] [] ["/x"] = Raise ValueError.
Proof.
  split; [now left |]. split; [intros rule [] | reflexivity].
Qed.

(** C8. The inclusion filter does raise: an absolute rule against a relative
    path makes [commonpath] raise [ValueError], which neither
    [is_file_in_list] nor [is_source_or_ignored] catches, although the
    docstring of [is_file_in_list] promises True or False. *)
Theorem inclusion_filter_raises :
  is_file_in_list ["/x"] "a.cpp" "ignored" = Raise ValueError
  /\ is_source_or_ignored "a.cpp" ["cpp"] ["/x"] [] = Raise ValueError.
Proof. split; reflexivity. Qed.

(** With both rule lists empty the filter is permissive: it raises nothing
    and includes exactly the files whose extension is in the list. *)
Lemma inclusion_filter_permissive_default
    (file_name : string) (ext_list : list string) :
  exists b : bool,
    is_source_or_ignored file_name ext_list [] [] = Ok b
    /\ (b = true <-> In (extension_of file_name) ext_list).
Proof.
  rewrite (is_source_or_ignored_same_kind file_name ext_list [] [])
    by constructor.
  eexists. split; [reflexivity |].
  cbn [existsb negb orb]. rewrite andb_true_r. apply str_in_iff.
Qed.
End InclusionClaims.

(** The extension test is case-sensitive and reads the last suffix only. *)
Example extension_examples :
  extension_of "src/lib/foo.cpp" = "cpp"%string
  /\ extension_of "archive.tar.gz" = "gz"%string
  /\ extension_of "FOO.CPP" = "CPP"%string
  /\ extension_of ".clang-format" = ""%string
  /\ is_source_or_ignored "FOO.CPP" ["cpp"%string] [] [] = Ok false.
Proof. repeat split; reflexivity. Qed.

(** * Further properties *)

(** ** The range consolidator: canonical form and composition *)

Lemma zrange_cons (a b : Z) : a < b -> zrange a b = a :: zrange (a + 1) b.
Proof.
  intros Hab. unfold zrange.
  replace (Z.to_nat (b - a)) with (S (Z.to_nat (b - (a + 1)))) by lia.
  cbn [seq map]. f_equal; [lia |].
  rewrite <- seq_shift, map_map. apply map_ext. intros k. lia.
Qed.

(** A run of consecutive numbers extends the open range. *)
Lemma runs_from_zrange (k : nat) :
  forall (s p : Z) (tail : list Z),
    runs_from s p (zrange (p + 1) (p + 1 + Z.of_nat k) ++ tail)
    = runs_from s (p + Z.of_nat k) tail.
Proof.
  induction k as [| k IH]; intros s p tail.
  - rewrite Z.add_0_r, zrange_nil, Z.add_0_r. reflexivity.
  - rewrite zrange_cons by lia. cbn [app]. rewrite runs_from_cons.
    replace (p + 1 - 1 =? p) with true by (symmetry; apply Z.eqb_eq; lia).
    replace (p + 1 + Z.of_nat (S k)) with (p + 1 + 1 + Z.of_nat k) by lia.
    rewrite IH. f_equal. lia.
Qed.

Lemma runs_from_range (s a b : Z) (tail : list Z) :
  a < b ->
  runs_from s a (zrange (a + 1) b ++ tail) = runs_from s (b - 1) tail.
Proof.
  intros Hab.
  replace b with (a + 1 + Z.of_nat (Z.to_nat (b - a - 1))) at 1 by lia.
  rewrite runs_from_zrange. f_equal. lia.
Qed.

Lemma runs_from_expand (rs : list (Z * Z)) :
  forall s p : Z,
    Forall (fun r => fst r < snd r) rs ->
    StronglySorted range_apart rs ->
    Forall (fun r => p + 1 < fst r) rs ->
    runs_from s p (expand rs) = (s, p + 1) :: rs.
Proof.
  induction rs as [| [a b] rs IH]; intros s p Hne Hsorted Hgap.
  - reflexivity.
  - inversion Hne as [| ? ? Hab Hne']; subst.
    inversion Hsorted as [| ? ? Hsorted' Hhead]; subst.
    inversion Hgap as [| ? ? Hpa _]; subst. cbn [fst snd] in *.
    change (expand ((a, b) :: rs)) with (zrange a b ++ expand rs).
    rewrite (zrange_cons a b Hab). cbn [app]. rewrite runs_from_cons.
    replace (a - 1 =? p) with false by (symmetry; apply Z.eqb_neq; lia).
    rewrite (runs_from_range a a b _ Hab), IH; auto.
    + repeat f_equal. lia.
    + eapply Forall_impl; [| exact Hhead].
      unfold range_apart. cbn [snd]. intros r Hr. lia.
Qed.

Lemma runs_expand (rs : list (Z * Z)) :
  Forall (fun r => fst r < snd r) rs ->
  StronglySorted range_apart rs ->
  runs (expand rs) = rs.
Proof.
  destruct rs as [| [a b] rs]; intros Hne Hsorted; [reflexivity |].
  inversion Hne as [| ? ? Hab Hne']; subst.
  inversion Hsorted as [| ? ? Hsorted' Hhead]; subst. cbn [fst snd] in *.
  change (expand ((a, b) :: rs)) with (zrange a b ++ expand rs).
  rewrite (zrange_cons a b Hab). cbn [app runs].
  rewrite (runs_from_range a a b _ Hab), runs_from_expand; auto.
  - repeat f_equal. lia.
  - eapply Forall_impl; [| exact Hhead].
    unfold range_apart. cbn [snd]. intros r Hr. lia.
Qed.

(** X1. On strictly increasing numbers the returned ranges are maximal: each
    ends strictly before the next one starts, so no two can be merged. *)
Theorem consolidate_ranges_maximal (numbers : list Z) :
  strictly_increasing numbers = true ->
  exists rs : list (Z * Z),
    FileObj._consolidate_list_to_ranges numbers = Ok (map range_to_list rs)
    /\ StronglySorted range_apart rs.
Proof.
  intros Hinc. exists (runs numbers). split; [apply consolidate_runs |].
  apply (runs_apart numbers Hinc).
Qed.

Lemma consolidate_ranges_maximal_witness :
  strictly_increasing [1; 2; 4; 5; 6; 10] = true
  /\ exists rs : list (Z * Z),
       FileObj._consolidate_list_to_ranges [1; 2; 4; 5; 6; 10]
       = Ok (map range_to_list rs)
       /\ StronglySorted range_apart rs.
Proof.
  split; [reflexivity |].
  apply (consolidate_ranges_maximal [1; 2; 4; 5; 6; 10]). reflexivity.
Defined.

(** X2. Consolidating is the inverse of expanding: the numbers of a list of
    non-empty ranges, each ending strictly before the next starts, are
    consolidated into these same ranges. *)
Theorem consolidate_expand (rs : list (Z * Z)) :
  Forall (fun r => fst r < snd r) rs ->
  StronglySorted range_apart rs ->
  FileObj._consolidate_list_to_ranges (expand rs) = Ok (map range_to_list rs).
Proof.
  intros Hne Hsorted. rewrite consolidate_runs. now rewrite runs_expand.
Qed.

Lemma consolidate_expand_witness :
  (Forall (fun r => fst r < snd r) [(3, 6); (9, 10)]
   /\ StronglySorted range_apart [(3, 6); (9, 10)])
  /\ FileObj._consolidate_list_to_ranges (expand [(3, 6); (9, 10)])
     = Ok (map range_to_list [(3, 6); (9, 10)]).
Proof.
  assert (Hne : Forall (fun r : Z * Z => fst r < snd r) [(3, 6); (9, 10)])
    by (repeat constructor).
  assert (Hs : StronglySorted range_apart [(3, 6); (9, 10)])
    by (repeat constructor).
  split; [split; assumption |].
  apply (consolidate_expand [(3, 6); (9, 10)] Hne Hs).
Defined.

Lemma last_cons_default {A : Type} (l : list A) :
  forall n d : A, last (n :: l) d = last l n.
Proof.
  induction l as [| m l IH]; intros n d; [reflexivity |].
  change (last (n :: m :: l) d) with (last (m :: l) d).
  now rewrite !IH.
Qed.

Lemma last_nonnil {A : Type} (l : list A) (d1 d2 : A) :
  l <> [] -> last l d1 = last l d2.
Proof.
  destruct l as [| x l]; [contradiction | intros _].
  now rewrite !last_cons_default.
Qed.

Lemma runs_from_app_gap (rest1 : list Z) :
  forall (s p b : Z) (rest2 : list Z),
    b - 1 <> last rest1 p ->
    runs_from s p (rest1 ++ b :: rest2)
    = runs_from s p rest1 ++ runs_from b b rest2.
Proof.
  induction rest1 as [| n rest1 IH]; intros s p b rest2 Hgap.
  - cbn [app last] in *. rewrite runs_from_cons.
    now replace (b - 1 =? p) with false by (symmetry; now apply Z.eqb_neq).
  - rewrite last_cons_default in Hgap. cbn [app]. rewrite !runs_from_cons.
    destruct (n - 1 =? p); rewrite (IH _ _ _ _ Hgap); reflexivity.
Qed.

(** X3. Two lists separated by a gap are consolidated independently: when
    the first number of the second list is not the successor of the last
    number of the first, the ranges of the concatenation are the ranges of
    the first list followed by those of the second. *)
Theorem consolidate_app_gap (l1 : list Z) (a b : Z) (l2 : list Z) :
  b - 1 <> a ->
  exists r1 r2 : list (list Z),
    FileObj._consolidate_list_to_ranges (l1 ++ [a]) = Ok r1
    /\ FileObj._consolidate_list_to_ranges (b :: l2) = Ok r2
    /\ FileObj._consolidate_list_to_ranges ((l1 ++ [a]) ++ b :: l2)
       = Ok (r1 ++ r2).
Proof.
  intros Hgap.
  exists (map range_to_list (runs (l1 ++ [a]))),
         (map range_to_list (runs (b :: l2))).
  rewrite !consolidate_runs, <- map_app.
  repeat split. do 2 f_equal.
  destruct l1 as [| n l1]; cbn [app runs].
  - rewrite runs_from_cons.
    now replace (b - 1 =? a) with false by (symmetry; now apply Z.eqb_neq).
  - apply runs_from_app_gap. now rewrite last_last.
Qed.

Lemma consolidate_app_gap_witness :
  5 - 1 <> 2
  /\ exists r1 r2 : list (list Z),
       FileObj._consolidate_list_to_ranges ([1] ++ [2]) = Ok r1
       /\ FileObj._consolidate_list_to_ranges (5 :: [6]) = Ok r2
       /\ FileObj._consolidate_list_to_ranges (([1] ++ [2]) ++ 5 :: [6])
          = Ok (r1 ++ r2).
Proof.
  split; [lia |]. apply (consolidate_app_gap [1] 2 5 [6]). lia.
Defined.

Lemma runs_from_shape (rest : list Z) :
  forall s p : Z,
    fst (hd (0, 0) (runs_from s p rest)) = s
    /\ snd (last (runs_from s p rest) (0, 0)) = last rest p + 1
    /\ (List.length (runs_from s p rest) <= S (List.length rest))%nat
    /\ runs_from s p rest <> [].
Proof.
  induction rest as [| n rest IH]; intros s p.
  - cbn. repeat split; [lia | discriminate].
  - rewrite runs_from_cons.
    rewrite last_cons_default.
    destruct (n - 1 =? p).
    + destruct (IH s n) as [Hhd [Hl [Hlen Hnil]]].
      repeat split; auto.
    + destruct (IH n n) as [Hhd [Hl [Hlen Hnil]]].
      repeat split; [| cbn [List.length] in *; lia | discriminate].
      now rewrite last_cons_default, <- Hl, (last_nonnil _ _ (0, 0) Hnil).
Qed.

(** X4. On a non-empty list, of any order, the first range starts at the
    first number, the last range ends one past the last number, there are
    at most as many ranges as numbers, and at least one. *)
Theorem consolidate_bounds (n : Z) (rest : list Z) :
  exists rs : list (Z * Z),
    FileObj._consolidate_list_to_ranges (n :: rest)
    = Ok (map range_to_list rs)
    /\ fst (hd (0, 0) rs) = n
    /\ snd (last rs (0, 0)) = last rest n + 1
    /\ (1 <= List.length rs <= List.length (n :: rest))%nat.
Proof.
  exists (runs (n :: rest)). split; [apply consolidate_runs |].
  cbn [runs]. destruct (runs_from_shape rest n n) as [Hhd [Hl [Hlen Hnil]]].
  repeat split; auto.
  destruct (runs_from n n rest); [contradiction | cbn; lia].
Qed.

(** ** The runs of a list in any order *)

Lemma runs_from_nonempty (rest : list Z) :
  forall s p : Z,
    s <= p -> Forall (fun r => fst r < snd r) (runs_from s p rest).
Proof.
  induction rest as [| n rest IH]; intros s p Hsp.
  - repeat constructor. cbn. lia.
  - rewrite runs_from_cons. destruct (Z.eqb_spec (n - 1) p) as [Hrun | Hgap].
    + apply IH. lia.
    + constructor; [cbn; lia | apply IH; lia].
Qed.

Lemma run_breaks_cons (r : Z * Z) (rs : list (Z * Z)) :
  run_breaks (r :: rs)
  <-> match rs with [] => True | r2 :: _ => snd r <> fst r2 end
      /\ run_breaks rs.
Proof. destruct rs; cbn [run_breaks]; tauto. Qed.

Lemma runs_from_breaks (rest : list Z) :
  forall s p : Z, run_breaks (runs_from s p rest).
Proof.
  induction rest as [| n rest IH]; intros s p; [exact I |].
  rewrite runs_from_cons. destruct (Z.eqb_spec (n - 1) p) as [Hrun | Hgap].
  - apply IH.
  - apply run_breaks_cons. split; [| apply IH].
    destruct (runs_from_shape rest n n) as [Hhd _].
    destruct (runs_from n n rest) as [| r2 rs]; [exact I |].
    cbn in *. lia.
Qed.

(** The runs are the only non-empty, unjoinable ranges that expand to the
    numbers. *)
Lemma runs_from_expand_breaks (rs : list (Z * Z)) :
  forall s p : Z,
    Forall (fun r => fst r < snd r) rs ->
    run_breaks rs ->
    match rs with [] => True | r :: _ => p + 1 <> fst r end ->
    runs_from s p (expand rs) = (s, p + 1) :: rs.
Proof.
  induction rs as [| [a b] rs IH]; intros s p Hne Hbreaks Hhead.
  - reflexivity.
  - inversion Hne as [| ? ? Hab Hne']; subst. cbn [fst snd] in *.
    apply run_breaks_cons in Hbreaks as [Hnext Hbreaks].
    change (expand ((a, b) :: rs)) with (zrange a b ++ expand rs).
    rewrite (zrange_cons a b Hab). cbn [app]. rewrite runs_from_cons.
    replace (a - 1 =? p) with false by (symmetry; apply Z.eqb_neq; lia).
    rewrite (runs_from_range a a b _ Hab), IH; auto.
    + repeat f_equal. lia.
    + destruct rs as [| r2 rs]; [exact I |]. cbn [snd] in Hnext. lia.
Qed.

Lemma runs_unique (rs : list (Z * Z)) :
  Forall (fun r => fst r < snd r) rs ->
  run_breaks rs ->
  runs (expand rs) = rs.
Proof.
  destruct rs as [| [a b] rs]; intros Hne Hbreaks; [reflexivity |].
  inversion Hne as [| ? ? Hab Hne']; subst. cbn [fst snd] in *.
  apply run_breaks_cons in Hbreaks as [Hnext Hbreaks].
  change (expand ((a, b) :: rs)) with (zrange a b ++ expand rs).
  rewrite (zrange_cons a b Hab). cbn [app runs].
  rewrite (runs_from_range a a b _ Hab), runs_from_expand_breaks; auto.
  - repeat f_equal. lia.
  - destruct rs as [| r2 rs]; [exact I |]. cbn [snd] in Hnext. lia.
Qed.

Lemma runs_nonempty_breaks (numbers : list Z) :
  Forall (fun r => fst r < snd r) (runs numbers) /\ run_breaks (runs numbers).
Proof.
  destruct numbers as [| n rest]; [split; [constructor | exact I] |].
  split; [apply runs_from_nonempty; lia | apply runs_from_breaks].
Qed.

(** C7, amended. On every input that is not strictly increasing the
    consolidator raises nothing: it returns the runs of consecutive numbers
    in the order of the input. The returned ranges are non-empty, none starts
    where the one before it ends, and they expand to the input again; they
    are the only list of ranges with these three properties. [[3,1]] gives
    [[[3,4],[1,2]]] and [[3,4,1]] gives [[[3,5],[1,2]]]. *)
Theorem consolidate_malformed_returns :
  (forall numbers : list Z,
      strictly_increasing numbers = false ->
      exists rs : list (Z * Z),
        FileObj._consolidate_list_to_ranges numbers = Ok (map range_to_list rs)
        /\ Forall (fun r => fst r < snd r) rs
        /\ run_breaks rs
        /\ expand rs = numbers
        /\ (forall rs' : list (Z * Z),
               Forall (fun r => fst r < snd r) rs' ->
               run_breaks rs' ->
               expand rs' = numbers ->
               rs' = rs))
  /\ FileObj._consolidate_list_to_ranges [3; 1] = Ok [[3; 4]; [1; 2]]
  /\ FileObj._consolidate_list_to_ranges [3; 4; 1] = Ok [[3; 5]; [1; 2]].
Proof.
  split; [| split; reflexivity].
  intros numbers _. exists (runs numbers).
  destruct (runs_nonempty_breaks numbers) as [Hne Hbreaks].
  split; [apply consolidate_runs |].
  split; [exact Hne |]. split; [exact Hbreaks |].
  split; [apply expand_runs |].
  intros rs' Hne' Hbreaks' Hexp.
  rewrite <- Hexp. symmetry. now apply runs_unique.
Qed.

Lemma consolidate_malformed_returns_witness :
  strictly_increasing [3; 4; 1] = false
  /\ exists rs : list (Z * Z),
       FileObj._consolidate_list_to_ranges [3; 4; 1]
       = Ok (map range_to_list rs)
       /\ Forall (fun r => fst r < snd r) rs
       /\ run_breaks rs
       /\ expand rs = [3; 4; 1]
       /\ (forall rs' : list (Z * Z),
              Forall (fun r => fst r < snd r) rs' ->
              run_breaks rs' ->
              expand rs' = [3; 4; 1] ->
              rs' = rs).
Proof.
  split; [reflexivity |].
  apply (proj1 consolidate_malformed_returns [3; 4; 1]). reflexivity.
Defined.

(** ** The file descriptor: modes, ranges and the snapshot *)

Lemma has_line_changes_true (lines_changed_only : Z)
    (diff_chunks : list (list Z)) (additions : list Z) :
  has_line_changes lines_changed_only diff_chunks additions = true
  <-> lines_changed_only = 0
      \/ (lines_changed_only = 1 /\ diff_chunks <> [])
      \/ (lines_changed_only = 2 /\ additions <> []).
Proof.
  unfold has_line_changes, truthy.
  rewrite !orb_true_iff, !andb_true_iff, negb_true_iff, negb_false_iff.
  rewrite !Z.eqb_eq, !len_pos_iff. tauto.
Qed.

(** X5. For every integer mode, [has_line_changes] is true exactly in mode 0,
    in mode 1 with some diff chunk, and in mode 2 with some addition; every
    other mode, negative ones too, gives false. *)
Theorem has_line_changes_iff (lines_changed_only : Z)
    (diff_chunks : list (list Z)) (additions : list Z) :
  has_line_changes lines_changed_only diff_chunks additions = true
  <-> lines_changed_only = 0
      \/ (lines_changed_only = 1 /\ diff_chunks <> [])
      \/ (lines_changed_only = 2 /\ additions <> []).
Proof. apply has_line_changes_true. Qed.

Lemma runs_nil_iff (numbers : list Z) : runs numbers = [] <-> numbers = [].
Proof.
  destruct numbers as [| n rest]; [tauto |]. cbn [runs].
  destruct (runs_from_shape rest n n) as [_ [_ [_ Hnil]]].
  split; [contradiction | discriminate].
Qed.

(** X6. A constructed file that [has_line_changes] keeps in mode 1 or 2 has
    a non-empty list of ranges in that mode, and one that it drops has an
    empty list: the predicate and [range_of_changed_lines] agree. *)
Theorem has_line_changes_ranges (name : string) (additions : list Z)
    (diff_chunks : list (list Z)) :
  exists self : FileObj.t,
    FileObj.__init__ name additions diff_chunks = Ok self
    /\ (has_line_changes 1 (FileObj.diff_chunks self) (FileObj.additions self)
        = true
        <-> FileObj.range_of_changed_lines self 1 true <> PyList [])
    /\ (has_line_changes 2 (FileObj.diff_chunks self) (FileObj.additions self)
        = true
        <-> FileObj.range_of_changed_lines self 2 true <> PyList []).
Proof.
  unfold FileObj.__init__. rewrite consolidate_runs. cbn [bind].
  eexists. split; [reflexivity |].
  rewrite !has_line_changes_true.
  cbn [FileObj.diff_chunks FileObj.additions FileObj.lines_added
       FileObj.range_of_changed_lines truthy Z.eqb negb Pos.eqb].
  unfold of_ranges. split.
  - destruct diff_chunks; cbn [map]; split.
    + intros [H | [[_ H] | [H _]]];
        [discriminate | contradiction | discriminate].
    + intros H. now contradiction H.
    + discriminate.
    + intros _. right. left. split; [reflexivity | discriminate].
  - pose proof (runs_nil_iff additions) as Hnil.
    destruct (runs additions) as [| r rs]; cbn [map]; split.
    + intros [H | [[H _] | [_ H]]]; [discriminate | discriminate |].
      exfalso. now apply H, Hnil.
    + intros H. now contradiction H.
    + discriminate.
    + intros _. right. right. split; [reflexivity |].
      intros Ha. apply Hnil in Ha. discriminate Ha.
Qed.

Lemma map_injective {A B : Type} (f : A -> B) :
  (forall x y, f x = f y -> x = y) ->
  forall l1 l2, map f l1 = map f l2 -> l1 = l2.
Proof.
  intros Hf. induction l1 as [| x l1 IH]; intros [| y l2] H;
    try discriminate; [reflexivity |].
  cbn [map] in H. injection H as Hxy Hl. f_equal; auto.
Qed.

Lemma json_lines_inj (l1 l2 : list Z) :
  json_lines l1 = json_lines l2 -> l1 = l2.
Proof.
  unfold json_lines. intros [= H].
  apply (map_injective JInt); [| exact H]. now intros x y [= ->].
Qed.

Lemma range_to_list_inj (r1 r2 : Z * Z) :
  range_to_list r1 = range_to_list r2 -> r1 = r2.
Proof. destruct r1, r2. unfold range_to_list. cbn. now intros [= -> ->]. Qed.

(** X7. The snapshot of a constructed file determines the file: two files
    built by [__init__] with the same [serialize] output have the same name,
    the same diff chunks and the same additions, although the additions are
    not written in the snapshot. *)
Theorem serialize_constructed_inj
    (name1 name2 : string) (additions1 additions2 : list Z)
    (diff_chunks1 diff_chunks2 : list (list Z)) (file1 file2 : FileObj.t) :
  FileObj.__init__ name1 additions1 diff_chunks1 = Ok file1 ->
  FileObj.__init__ name2 additions2 diff_chunks2 = Ok file2 ->
  FileObj.serialize file1 = FileObj.serialize file2 ->
  name1 = name2 /\ additions1 = additions2 /\ diff_chunks1 = diff_chunks2
  /\ file1 = file2.
Proof.
  unfold FileObj.__init__. rewrite !consolidate_runs. cbn [bind].
  intros [= <-] [= <-]. unfold FileObj.serialize.
  cbn [FileObj.name FileObj.diff_chunks FileObj.lines_added].
  intros [= Hname Hchunks Hadded].
  apply (map_injective json_lines json_lines_inj) in Hchunks, Hadded.
  apply (map_injective range_to_list range_to_list_inj) in Hadded.
  assert (Hadd : additions1 = additions2)
    by (rewrite <- (expand_runs additions1), Hadded; apply expand_runs).
  subst. repeat split.
Qed.

Lemma serialize_constructed_inj_witness :
  exists file : FileObj.t,
    FileObj.__init__ "a.cpp" [3; 4] [[1; 9]] = Ok file
    /\ FileObj.serialize file = FileObj.serialize file
    /\ ("a.cpp"%string = "a.cpp"%string /\ [3; 4] = [3; 4]
        /\ [[1; 9]] = [[1; 9]] /\ file = file).
Proof.
  exists (FileObj.mk "a.cpp" [3; 4] [[1; 9]] [[3; 5]]).
  split; [reflexivity |]. split; [reflexivity |].
  apply (serialize_constructed_inj "a.cpp" "a.cpp" [3; 4] [3; 4]
                                   [[1; 9]] [[1; 9]]);
    reflexivity.
Defined.

(** The additions are not in the snapshot: records that were not built by
    [__init__] can differ and serialize alike. *)
Example serialize_omits_additions :
  FileObj.serialize (FileObj.mk "a.cpp" [3] [] [[3; 4]])
  = FileObj.serialize (FileObj.mk "a.cpp" [7] [] [[3; 4]]).
Proof. reflexivity. Qed.

(** ** The inclusion filter: outcomes and matching *)

Section FilterOutcomes.
Local Open Scope string_scope.

Lemma is_file_in_list_step (rule : string) (rules : list string)
    (file_name prompt : string) :
  is_file_in_list (rule :: rules) file_name prompt
  = if Bool.eqb (starts_with_sep rule) (starts_with_sep file_name) then
      if rule_matches file_name rule then Ok true
      else is_file_in_list rules file_name prompt
    else Raise ValueError.
Proof.
  rewrite is_file_in_list_cons. unfold common_path.
  now destruct (Bool.eqb (starts_with_sep rule) (starts_with_sep file_name)).
Qed.

Lemma rule_matches_kind (file_name rule : string) :
  rule_matches file_name rule = true ->
  starts_with_sep rule = starts_with_sep file_name.
Proof.
  unfold rule_matches, common_path.
  destruct (Bool.eqb (starts_with_sep rule) (starts_with_sep file_name))
    eqn:Hk; [intros _; now apply Bool.eqb_prop | discriminate].
Qed.

Lemma passed_over_nil (file_name : string) : passed_over file_name [].
Proof. split; [constructor | intros rule []]. Qed.

Lemma passed_over_cons (file_name rule : string) (pre : list string) :
  passed_over file_name (rule :: pre)
  <-> starts_with_sep rule = starts_with_sep file_name
      /\ rule_matches file_name rule = false
      /\ passed_over file_name pre.
Proof.
  unfold passed_over, same_kind. split.
  - intros [Hk Hm]. inversion Hk; subst. repeat split; auto.
    + apply Hm. now left.
    + intros r Hr. apply Hm. now right.
  - intros [Hk [Hm [Hks Hms]]]. split; [now constructor |].
    intros r [<- | Hr]; auto.
Qed.

Lemma is_file_in_list_true (rules : list string) (file_name prompt : string) :
  is_file_in_list rules file_name prompt = Ok true
  <-> exists pre rule post,
        rules = (pre ++ rule :: post)%list
        /\ passed_over file_name pre
        /\ rule_matches file_name rule = true.
Proof.
  induction rules as [| r rules IH].
  - split; [discriminate |].
    intros [pre [rule [post [H _]]]]. now destruct pre.
  - rewrite is_file_in_list_step. split.
    + destruct (Bool.eqb (starts_with_sep r) (starts_with_sep file_name))
        eqn:Hk; [| discriminate].
      apply Bool.eqb_prop in Hk.
      destruct (rule_matches file_name r) eqn:Hm.
      * intros _. exists [], r, rules.
        split; [reflexivity |]. split; [apply passed_over_nil | exact Hm].
      * intros H. apply IH in H as [pre [rule [post [-> [Hpre Hrule]]]]].
        exists (r :: pre), rule, post.
        split; [reflexivity |].
        split; [now apply passed_over_cons | exact Hrule].
    + intros [[| x pre] [rule [post [Heq [Hpre Hrule]]]]];
        injection Heq as <- ->.
      * rewrite (rule_matches_kind _ _ Hrule), Bool.eqb_reflx.
        now rewrite Hrule.
      * apply passed_over_cons in Hpre as [Hk [Hm Hpre]].
        rewrite Hk, Bool.eqb_reflx, Hm. apply IH.
        now exists pre, rule, post.
Qed.

Lemma is_file_in_list_false (rules : list string) (file_name prompt : string) :
  is_file_in_list rules file_name prompt = Ok false
  <-> passed_over file_name rules.
Proof.
  induction rules as [| r rules IH].
  - split; [| reflexivity]. intros _. apply passed_over_nil.
  - rewrite is_file_in_list_step, passed_over_cons.
    destruct (Bool.eqb (starts_with_sep r) (starts_with_sep file_name))
      eqn:Hk.
    + apply Bool.eqb_prop in Hk.
      destruct (rule_matches file_name r).
      * split; [discriminate | intros [_ [H _]]; discriminate H].
      * rewrite IH. tauto.
    + split; [discriminate |]. intros [H _].
      rewrite H, Bool.eqb_reflx in Hk. discriminate Hk.
Qed.

Lemma is_file_in_list_raise (rules : list string) (file_name prompt : string)
    (e : exn) :
  is_file_in_list rules file_name prompt = Raise e
  <-> e = ValueError
      /\ exists pre rule post,
           rules = (pre ++ rule :: post)%list
           /\ passed_over file_name pre
           /\ starts_with_sep rule <> starts_with_sep file_name.
Proof.
  induction rules as [| r rules IH].
  - split; [discriminate |].
    intros [_ [pre [rule [post [H _]]]]]. now destruct pre.
  - rewrite is_file_in_list_step. split.
    + destruct (Bool.eqb (starts_with_sep r) (starts_with_sep file_name))
        eqn:Hk.
      * apply Bool.eqb_prop in Hk.
        destruct (rule_matches file_name r) eqn:Hm; [discriminate |].
        intros H. apply IH in H as [-> [pre [rule [post [-> [Hpre Hrule]]]]]].
        split; [reflexivity |].
        exists (r :: pre), rule, post.
        split; [reflexivity |].
        split; [now apply passed_over_cons | exact Hrule].
      * intros [= <-]. split; [reflexivity |].
        exists [], r, rules.
        split; [reflexivity |]. split; [apply passed_over_nil |].
        intros H. rewrite H, Bool.eqb_reflx in Hk. discriminate Hk.
    + intros [-> [[| x pre] [rule [post [Heq [Hpre Hrule]]]]]];
        injection Heq as <- ->.
      * destruct (Bool.eqb (starts_with_sep r) (starts_with_sep file_name))
          eqn:Hk; [| reflexivity].
        now apply Bool.eqb_prop in Hk.
      * apply passed_over_cons in Hpre as [Hk [Hm Hpre]].
        rewrite Hk, Bool.eqb_reflx, Hm. apply IH. split; [reflexivity |].
        now exists pre, rule, post.
Qed.

(** X8. The three outcomes of [is_file_in_list]. It scans the rules in
    order, past those of the kind of the path (absolute or relative) that do
    not match. It answers true at the first rule that matches, raises
    [ValueError], and nothing else, at the first rule of the other kind, and
    answers false when it runs out of rules. *)
Theorem is_file_in_list_outcomes (rules : list string)
    (file_name prompt : string) :
  (is_file_in_list rules file_name prompt = Ok true
   <-> exists pre rule post,
         rules = (pre ++ rule :: post)%list
         /\ passed_over file_name pre
         /\ rule_matches file_name rule = true)
  /\ (is_file_in_list rules file_name prompt = Ok false
      <-> passed_over file_name rules)
  /\ (forall e : exn,
         is_file_in_list rules file_name prompt = Raise e
         <-> e = ValueError
             /\ exists pre rule post,
                  rules = (pre ++ rule :: post)%list
                  /\ passed_over file_name pre
                  /\ starts_with_sep rule <> starts_with_sep file_name).
Proof.
  split; [apply is_file_in_list_true |].
  split; [apply is_file_in_list_false |].
  intros e. apply is_file_in_list_raise.
Qed.

(** The order of the rules decides between an answer and an error. *)
Example is_file_in_list_order :
  is_file_in_list ["a"; "/x"] "a/b.cpp" "ignored" = Ok true
  /\ is_file_in_list ["/x"; "a"] "a/b.cpp" "ignored" = Raise ValueError.
Proof. split; reflexivity. Qed.
End FilterOutcomes.

Section InclusionDecision.
Local Open Scope string_scope.

Lemma is_file_in_list_answer (rules : list string)
    (file_name prompt : string) (b : bool) :
  is_file_in_list rules file_name prompt = Ok b ->
  existsb (rule_matches file_name) rules = b.
Proof.
  destruct b; intros H.
  - apply is_file_in_list_true in H as [pre [rule [post [-> [_ Hm]]]]].
    apply existsb_exists. exists rule. split; [| exact Hm].
    apply in_or_app. right. now left.
  - apply is_file_in_list_false in H as [_ Hnone].
    now apply existsb_rule_matches_none.
Qed.

(** Whatever [is_source_or_ignored] returns is the value of the decision
    formula. *)
Lemma is_source_or_ignored_answer
    (file_name : string) (ext_list ignored not_ignored : list string)
    (b : bool) :
  is_source_or_ignored file_name ext_list ignored not_ignored = Ok b ->
  b = str_in (extension_of file_name) ext_list
      && (existsb (rule_matches file_name) not_ignored
          || negb (existsb (rule_matches file_name) ignored)).
Proof.
  unfold is_source_or_ignored. fold (extension_of file_name).
  destruct (str_in (extension_of file_name) ext_list);
    [| now intros [= <-]].
  destruct (is_file_in_list not_ignored file_name "not ignored")
    as [included |] eqn:Hnot; cbn [bind]; [| discriminate].
  apply is_file_in_list_answer in Hnot. rewrite Hnot.
  destruct included; [now intros [= <-] |].
  destruct (is_file_in_list ignored file_name "ignored")
    as [excluded |] eqn:Hign; cbn [bind]; [| discriminate].
  apply is_file_in_list_answer in Hign. rewrite Hign.
  now intros [= <-].
Qed.

(** C3, as the specification states it, fails: the path [a\b/c.cpp] has an
    allowed extension and the ignored rule [a\b] is its own common
    path-prefix with it, so the specification excludes the path; the code
    includes it, since it never matches a rule that holds a backslash. *)
Lemma is_source_or_ignored_backslash_rule :
  In (extension_of "a\b/c.cpp") ["cpp"]
  /\ common_path "a\b" "a\b/c.cpp" = Some "a\b"
  /\ is_source_or_ignored "a\b/c.cpp" ["cpp"] ["a\b"] [] = Ok true.
Proof. split; [now left | split; reflexivity]. Qed.

(** C3, amended. A rule matches a path when the rule holds no backslash and
    the longest common path-prefix of the two, computed segment by segment,
    is the rule itself. [is_source_or_ignored] returns true only when the
    final extension of the path is in the extension list and the path
    matches some not-ignored rule or matches no ignored rule, and returns
    false only when that condition fails; so a call that returns never
    excludes a path with an allowed extension that matches a not-ignored
    rule, whatever the ignored rules are, and a path whose extension is not
    in the list is always excluded. [src/lib/foo.cpp] with
    [ignored = ["src/lib"]] is excluded, and included again with
    [not_ignored = ["src/lib/foo.cpp"]]. *)
Theorem is_source_or_ignored_decision :
  (forall file_name rule : string,
      rule_matches file_name rule = true
      <-> str_has "\" rule = false
          /\ common_path rule file_name = Some rule)
  /\ (forall (file_name : string) (ext_list ignored not_ignored : list string)
             (b : bool),
         is_source_or_ignored file_name ext_list ignored not_ignored = Ok b ->
         (b = true
          <-> In (extension_of file_name) ext_list
              /\ ((exists rule, In rule not_ignored
                                /\ rule_matches file_name rule = true)
                  \/ (forall rule, In rule ignored ->
                                   rule_matches file_name rule = false))))
  /\ (forall (file_name : string) (ext_list ignored not_ignored : list string)
             (b : bool),
         is_source_or_ignored file_name ext_list ignored not_ignored = Ok b ->
         In (extension_of file_name) ext_list ->
         (exists rule, In rule not_ignored
                       /\ rule_matches file_name rule = true) ->
         b = true)
  /\ (forall (file_name : string) (ext_list ignored not_ignored : list string),
         ~ In (extension_of file_name) ext_list ->
         is_source_or_ignored file_name ext_list ignored not_ignored
         = Ok false)
  /\ is_source_or_ignored "src/lib/foo.cpp" ["cpp"] ["src/lib"] []
     = Ok false
  /\ is_source_or_ignored "src/lib/foo.cpp" ["cpp"] ["src/lib"]
                          ["src/lib/foo.cpp"]
     = Ok true.
Proof.
  split; [| split; [| split; [| split; [| split; reflexivity]]]].
  - intros file_name rule. unfold rule_matches.
    destruct (common_path rule file_name) as [c |].
    + rewrite andb_true_iff, negb_true_iff, String.eqb_eq. split.
      * intros [-> Hback]. now split.
      * intros [Hback [= ->]]. now split.
    + split; [discriminate | intros [_ H]; discriminate H].
  - intros file_name ext_list ignored not_ignored b Hrun.
    apply is_source_or_ignored_answer in Hrun. subst b.
    rewrite andb_true_iff, orb_true_iff, negb_true_iff.
    now rewrite str_in_iff, existsb_rule_matches, existsb_rule_matches_none.
  - intros file_name ext_list ignored not_ignored b Hrun Hext Hrule.
    apply is_source_or_ignored_answer in Hrun. subst b.
    apply str_in_iff in Hext. apply existsb_rule_matches in Hrule.
    now rewrite Hext, Hrule.
  - intros file_name ext_list ignored not_ignored Hext.
    unfold is_source_or_ignored. fold (extension_of file_name).
    destruct (str_in (extension_of file_name) ext_list) eqn:Hin;
      [| reflexivity].
    now apply str_in_iff in Hin.
Qed.

Lemma is_source_or_ignored_decision_witness :
  is_source_or_ignored "src/lib/foo.cpp" ["cpp"] ["src/lib"]
                       ["src/lib/foo.cpp"]
  = Ok true
  /\ (true = true
      <-> In (extension_of "src/lib/foo.cpp") ["cpp"]
          /\ ((exists rule, In rule ["src/lib/foo.cpp"]
                            /\ rule_matches "src/lib/foo.cpp" rule = true)
              \/ (forall rule, In rule ["src/lib"] ->
                               rule_matches "src/lib/foo.cpp" rule = false))).
Proof.
  split; [reflexivity |].
  apply (proj1 (proj2 is_source_or_ignored_decision)
               "src/lib/foo.cpp" ["cpp"] ["src/lib"] ["src/lib/foo.cpp"] true).
  reflexivity.
Defined.
End InclusionDecision.

Section RuleShape.
Local Open Scope string_scope.

Lemma is_part_segment (l : list string) :
  Forall (fun x => is_segment x = true /\ str_has "/" x = false) l ->
  filter PurePath.is_part l = l.
Proof.
  intros Hl. apply filter_all. eapply Forall_impl; [| exact Hl].
  now intros x [Hx _].
Qed.

(** Parsing the join of a root and segments gives them back. *)
Lemma parse_join (prefix : string) (segs : list string) :
  prefix = "" \/ prefix = "/" ->
  Forall (fun x => is_segment x = true /\ str_has "/" x = false) segs ->
  PurePath.parse (prefix ++ String.concat "/" segs) = PurePath.mk prefix segs.
Proof.
  intros Hprefix Hwf. destruct segs as [| x l].
  - destruct Hprefix as [-> | ->]; reflexivity.
  - assert (Hsplit : str_split "/" (String.concat "/" (x :: l)) = x :: l).
    { apply str_split_concat; [discriminate |].
      eapply Forall_impl; [| exact Hwf]. now intros y [_ Hy]. }
    pose proof (is_part_segment _ Hwf) as Hfilter.
    destruct (concat_cons_head x l) as [tl Htl].
    inversion Hwf as [| ? ? [Hx Hslash] _]; subst.
    destruct x as [| a x]; [discriminate Hx |].
    cbn [str_has] in Hslash. apply orb_false_iff in Hslash as [Ha _].
    cbn [append] in Htl. rewrite Htl in *.
    unfold PurePath.parse, PurePath.splitroot.
    destruct Hprefix as [-> | ->]; cbn [append String.eqb substring];
      rewrite ?substring_0_0; cbn [String.eqb];
      rewrite ?Ascii.eqb_refl, ?Ha;
      cbn [negb orb andb str_drop]; now rewrite Hsplit, Hfilter.
Qed.

(** A rule matches a path exactly when it is canonical, has at most one
    leading slash and no backslash, is of the kind of the path, and its
    segments are the first segments of the path. *)
Lemma rule_match_iff (rule path prompt : string) :
  is_file_in_list [rule] path prompt = Ok true
  <-> canonical_rule rule
      /\ PurePath.root (PurePath.parse rule) <> "//"
      /\ str_has "\" rule = false
      /\ starts_with_sep rule = starts_with_sep path
      /\ segments_prefix (segments rule) (segments path).
Proof.
  rewrite is_file_in_list_single. unfold common_path, segments_prefix.
  rewrite <- common_prefix_whole. split.
  - destruct (Bool.eqb (starts_with_sep rule) (starts_with_sep path)) eqn:Hk;
      [| intros [Hc _]; discriminate Hc].
    intros [[= Hc] Hback]. apply Bool.eqb_prop in Hk.
    assert (Hwf : Forall (fun x => is_segment x = true
                                   /\ str_has "/" x = false)
                         (common_prefix (segments rule) (segments path))).
    { pose proof (parse_well_formed rule) as [_ Hparts].
      rewrite Forall_forall in *. intros x Hx.
      apply Hparts. eapply common_prefix_incl, Hx. }
    assert (Hprefix : (if starts_with_sep rule then "/" else "") = ""
                      \/ (if starts_with_sep rule then "/" else "") = "/")
      by (destruct (starts_with_sep rule); auto).
    pose proof (parse_join _ _ Hprefix Hwf) as Hparse.
    rewrite Hc in Hparse.
    assert (Hsegs : segments rule
                    = common_prefix (segments rule) (segments path))
      by (unfold segments at 1; now rewrite Hparse).
    unfold canonical_rule. rewrite Hparse at 1.
    cbn [PurePath.root]. rewrite Hsegs at 1.
    repeat split; auto.
    rewrite Hparse. cbn [PurePath.root].
    destruct (starts_with_sep rule); discriminate.
  - intros [Hcan [Hroot [Hback [Hk Hpre]]]].
    rewrite Hk, Bool.eqb_reflx, Hpre, <- Hk. split; [| exact Hback].
    f_equal. unfold canonical_rule in Hcan.
    rewrite (parse_root rule).
    destruct (parse_well_formed rule) as [[Hr | [Hr | Hr]] _];
      [| | contradiction]; rewrite Hr in *; exact Hcan.
Qed.

Lemma starts_with_sep_cons (a : ascii) (s : string) :
  starts_with_sep (String a s) = Ascii.eqb a "/".
Proof.
  unfold starts_with_sep. cbn [substring]. rewrite substring_0_0.
  cbn [String.eqb]. now destruct (Ascii.eqb a "/").
Qed.

Lemma segments_relative (p : string) :
  starts_with_sep p = false ->
  segments p = filter PurePath.is_part (str_split "/" p).
Proof.
  intros Hrel. unfold segments, PurePath.parse.
  destruct (String.eqb_spec p "") as [-> | _]; [reflexivity |].
  destruct (splitroot_cases p) as [[-> _] | [r [n [_ [_ Habs]]]]];
    [reflexivity | congruence].
Qed.
End RuleShape.

Section RuleTheorems.
Local Open Scope string_scope.

(** X9. What a matching rule looks like. A single rule makes
    [is_file_in_list] answer true exactly when the rule is written as the
    plain join of its root and segments (so without a trailing slash, a
    doubled slash or a [.] segment), starts with at most one slash, holds no
    backslash, is absolute or relative as the path is, and its segments are
    the first segments of the path. *)
Theorem rule_matches_canonical_prefix (rule path prompt : string) :
  is_file_in_list [rule] path prompt = Ok true
  <-> canonical_rule rule
      /\ PurePath.root (PurePath.parse rule) <> "//"
      /\ str_has "\" rule = false
      /\ starts_with_sep rule = starts_with_sep path
      /\ segments_prefix (segments rule) (segments path).
Proof. apply rule_match_iff. Qed.

(** Rules that are not canonical match nothing, not even themselves. *)
Example rule_not_canonical :
  is_file_in_list ["src/"] "src/a.cpp" "ignored" = Ok false
  /\ is_file_in_list ["./src"] "src/a.cpp" "ignored" = Ok false
  /\ is_file_in_list ["src//lib"] "src/lib/a.cpp" "ignored" = Ok false
  /\ is_file_in_list ["."] "a.cpp" "ignored" = Ok false
  /\ is_file_in_list ["//srv"] "//srv/a.cpp" "ignored" = Ok false.
Proof. repeat split; reflexivity. Qed.

(** X10. A rule that matches a relative path matches every path below it:
    appending a slash and anything more to the path keeps the match. *)
Theorem rule_matches_below (rule path more prompt : string) :
  is_file_in_list [rule] path prompt = Ok true ->
  starts_with_sep path = false ->
  path <> "" ->
  is_file_in_list [rule] (path ++ "/" ++ more) prompt = Ok true.
Proof.
  rewrite !rule_match_iff.
  intros [Hcan [Hroot [Hback [Hk [rest Hpre]]]]] Hrel Hne.
  destruct path as [| a path]; [contradiction |].
  assert (Hrel' : starts_with_sep (String a path ++ "/" ++ more) = false)
    by (cbn [append]; now rewrite starts_with_sep_cons in *).
  repeat split; auto; [congruence |].
  exists (rest ++ filter PurePath.is_part (str_split "/" more))%list.
  rewrite (segments_relative _ Hrel').
  change (String a path ++ "/" ++ more)
    with (String a path ++ String "/" more).
  rewrite str_split_app, filter_app, <- (segments_relative _ Hrel), Hpre.
  now rewrite app_assoc.
Qed.

Lemma rule_matches_below_witness :
  (is_file_in_list ["src/lib"] "src/lib/net" "ignored" = Ok true
   /\ starts_with_sep "src/lib/net" = false
   /\ "src/lib/net" <> "")
  /\ is_file_in_list ["src/lib"] ("src/lib/net" ++ "/" ++ "tcp/sock.cpp")
                     "ignored"
     = Ok true.
Proof.
  assert (Hne : "src/lib/net" <> "") by discriminate.
  split; [repeat split; exact Hne |].
  apply (rule_matches_below "src/lib" "src/lib/net" "tcp/sock.cpp" "ignored");
    [reflexivity | reflexivity | exact Hne].
Defined.

(** X11. The empty rule matches every relative path and the rule [/] every
    absolute path, whatever rules follow; on a path of the other kind each
    raises [ValueError]. *)
Theorem empty_and_root_rule (rules : list string) (file_name prompt : string) :
  is_file_in_list ("" :: rules) file_name prompt
  = (if starts_with_sep file_name then Raise ValueError else Ok true)
  /\ is_file_in_list ("/" :: rules) file_name prompt
     = (if starts_with_sep file_name then Ok true else Raise ValueError).
Proof.
  rewrite !is_file_in_list_step. unfold rule_matches, common_path.
  change (starts_with_sep "") with false.
  change (starts_with_sep "/") with true.
  change (segments "") with (@nil string).
  change (segments "/") with (@nil string).
  destruct (starts_with_sep file_name); split; reflexivity.
Qed.
End RuleTheorems.

(** ** The extension test *)

Section Extension.
Local Open Scope string_scope.

(** [rfind] returns [last] when the character is absent, else the index
    where the last occurrence starts. *)
Lemma str_rfind_from_spec (c : ascii) (s : string) :
  forall i last : Z,
    (str_rfind_from c s i last = last /\ str_has c s = false)
    \/ (exists (n : nat) (rest : string),
          str_rfind_from c s i last = (i + Z.of_nat n)%Z
          /\ str_drop n s = String c rest
          /\ str_has c rest = false).
Proof.
  induction s as [| a s IH]; intros i last; [left; split; reflexivity |].
  cbn [str_rfind_from str_has].
  destruct (IH (i + 1)%Z (if Ascii.eqb a c then i else last))
    as [[Hr Hnone] | [n [rest [Hr [Hdrop Hrest]]]]].
  - destruct (Ascii.eqb_spec a c) as [-> | _].
    + right. exists 0%nat, s. rewrite Hr. repeat split; [lia | exact Hnone].
    + left. now split.
  - right. exists (S n), rest. rewrite Hr. repeat split; [lia | | ]; assumption.
Qed.

Lemma str_lstrip_absent (c : ascii) (s : string) :
  str_has c s = false -> str_lstrip c s = s.
Proof.
  destruct s as [| a s]; [reflexivity |]. cbn [str_has str_lstrip].
  intros H. apply orb_false_iff in H as [-> _]. reflexivity.
Qed.

Lemma name_no_slash (p : string) :
  str_has "/" (PurePath.name (PurePath.parse p)) = false.
Proof.
  unfold PurePath.name.
  destruct (parse_well_formed p) as [_ Hparts].
  destruct (PurePath.parts (PurePath.parse p)) as [| x l] eqn:Hp;
    [reflexivity |].
  assert (Hin : In (last (x :: l) "") (x :: l))
    by (clear; revert x; induction l as [| y l IH]; intros x;
        [now left | right; apply IH]).
  rewrite Forall_forall in Hparts. now apply Hparts.
Qed.

(** The extension holds neither a dot nor a slash. *)
Lemma extension_plain (file_name : string) :
  str_has "." (extension_of file_name) = false
  /\ str_has "/" (extension_of file_name) = false.
Proof.
  unfold extension_of, PurePath.suffix.
  pose proof (name_no_slash file_name) as Hslash.
  set (name := PurePath.name (PurePath.parse file_name)) in *.
  unfold str_rfind.
  destruct (str_rfind_from_spec "." name 0 (-1))
    as [[-> _] | [n [rest [-> [Hdrop Hrest]]]]]; [split; reflexivity |].
  destruct ((0 <? 0 + Z.of_nat n) && (0 + Z.of_nat n <? str_len name - 1))%Z;
    [| split; reflexivity].
  rewrite Z.add_0_l, Nat2Z.id, Hdrop. cbn [str_lstrip].
  rewrite Ascii.eqb_refl, (str_lstrip_absent _ _ Hrest).
  split; [exact Hrest |].
  apply (str_has_drop "/" n) in Hslash. rewrite Hdrop in Hslash.
  cbn [str_has] in Hslash. now apply orb_false_iff in Hslash as [_ H].
Qed.

(** X12. The extension that is tested holds neither a dot nor a slash, so
    an extension list whose entries all hold one (such as [".cpp"] or
    ["tar.gz"]) admits no file: [is_source_or_ignored] answers false
    whatever the path and the rules are, and raises nothing. *)
Theorem dotted_extensions_admit_nothing :
  (forall file_name : string,
      str_has "." (extension_of file_name) = false
      /\ str_has "/" (extension_of file_name) = false)
  /\ (forall (file_name : string) (ext_list ignored not_ignored : list string),
         Forall (fun ext => str_has "." ext || str_has "/" ext = true)
                ext_list ->
         is_source_or_ignored file_name ext_list ignored not_ignored
         = Ok false).
Proof.
  split; [apply extension_plain |].
  intros file_name ext_list ignored not_ignored Hdots.
  unfold is_source_or_ignored. fold (extension_of file_name).
  destruct (str_in (extension_of file_name) ext_list) eqn:Hin;
    [| reflexivity].
  apply str_in_iff in Hin. rewrite Forall_forall in Hdots.
  specialize (Hdots _ Hin).
  destruct (extension_plain file_name) as [Hdot Hslash].
  rewrite Hdot, Hslash in Hdots. discriminate Hdots.
Qed.

Lemma dotted_extensions_admit_nothing_witness :
  Forall (fun ext => str_has "." ext || str_has "/" ext = true)
         [".cpp"; "tar.gz"]
  /\ is_source_or_ignored "src/a.cpp" [".cpp"; "tar.gz"] ["/x"] []
     = Ok false.
Proof.
  assert (H : Forall (fun ext => str_has "." ext || str_has "/" ext = true)
                     [".cpp"; "tar.gz"])
    by (repeat constructor).
  split; [exact H |].
  apply (proj2 dotted_extensions_admit_nothing
               "src/a.cpp" [".cpp"; "tar.gz"] ["/x"] [] H).
Defined.
End Extension.

(** ** The offset translator: stepping, the end of the file, bad offsets *)

Lemma bytes_rfind_from_app (b : byte) (l1 l2 : list byte) :
  forall i last : Z,
    bytes_rfind_from b (l1 ++ l2) i last
    = bytes_rfind_from b l2 (i + len l1) (bytes_rfind_from b l1 i last).
Proof.
  induction l1 as [| x l1 IH]; intros i last.
  - cbn [app bytes_rfind_from]. change (len (@nil byte)) with 0.
    now rewrite Z.add_0_r.
  - cbn [app bytes_rfind_from]. rewrite IH, len_cons. f_equal. lia.
Qed.

Lemma bytes_rfind_snoc (b x : byte) (l : list byte) :
  bytes_rfind b (l ++ [x])
  = if Byte.eqb x b then len l else bytes_rfind b l.
Proof.
  unfold bytes_rfind. rewrite bytes_rfind_from_app. cbn [bytes_rfind_from].
  now rewrite Z.add_0_l.
Qed.

Lemma bytes_rfind_lower (b : byte) (l : list byte) : -1 <= bytes_rfind b l.
Proof.
  unfold bytes_rfind.
  destruct (bytes_rfind_from_spec b l 0 (-1)) as [[-> _] | [k [-> _]]]; lia.
Qed.

Lemma bytes_count_nonneg (b : byte) (l : list byte) : 0 <= bytes_count b l.
Proof.
  induction l as [| x l IH]; cbn [bytes_count]; [lia |].
  destruct (Byte.eqb x b); lia.
Qed.

Lemma len_firstn_inside {A : Type} (l : list A) (n : nat) (x : A) :
  nth_error l n = Some x -> len (firstn n l) = Z.of_nat n.
Proof.
  intros Hn. unfold len. rewrite length_firstn.
  assert (n < List.length l)%nat by (apply nth_error_Some; congruence).
  lia.
Qed.

(** X13. Stepping over one byte: the position of offset 0 is [(1, 1)]; past
    a byte that is not a newline the line stays and the column grows by
    one; past a newline the line grows by one and the column is 1 again. *)
Theorem get_line_cnt_from_cols_step :
  (forall (fs : string -> option (list byte)) (file_path : string)
          (data : list byte),
      fs file_path = Some data ->
      get_line_cnt_from_cols fs file_path 0 = Ok (1, 1))
  /\ (forall (fs : string -> option (list byte)) (file_path : string)
             (data : list byte) (offset : Z) (b : byte),
         fs file_path = Some data ->
         0 <= offset ->
         nth_error data (Z.to_nat offset) = Some b ->
         exists line column : Z,
           get_line_cnt_from_cols fs file_path offset = Ok (line, column)
           /\ get_line_cnt_from_cols fs file_path (offset + 1)
              = Ok (if Byte.eqb b newline then (line + 1, 1)
                    else (line, column + 1))).
Proof.
  split.
  - intros fs file_path data Hread.
    unfold get_line_cnt_from_cols, read_bytes. rewrite Hread. reflexivity.
  - intros fs file_path data offset b Hread Hoff Hb.
    unfold get_line_cnt_from_cols, read_bytes. rewrite Hread. cbn [bind].
    unfold py_slice_to.
    destruct (Z.ltb_spec offset 0) as [Hneg | _]; [lia |].
    destruct (Z.ltb_spec (offset + 1) 0) as [Hneg | _]; [lia |].
    replace (Z.to_nat (offset + 1)) with (S (Z.to_nat offset)) by lia.
    rewrite firstn_succ, Hb, bytes_count_app, bytes_rfind_snoc.
    rewrite (len_firstn_inside _ _ _ Hb), Z2Nat.id by exact Hoff.
    eexists _, _. split; [reflexivity |].
    cbn [bytes_count]. destruct (Byte.eqb b newline); do 2 f_equal; lia.
Qed.

Lemma get_line_cnt_from_cols_step_witness :
  exists line column : Z,
    get_line_cnt_from_cols (fun _ => Some [x61; x62; x0a; x63; x64])
                           "ab.txt" 2
    = Ok (line, column)
    /\ get_line_cnt_from_cols (fun _ => Some [x61; x62; x0a; x63; x64])
                              "ab.txt" (2 + 1)
       = Ok (if Byte.eqb x0a newline then (line + 1, 1)
             else (line, column + 1)).
Proof.
  apply (proj2 get_line_cnt_from_cols_step
               (fun _ => Some [x61; x62; x0a; x63; x64]) "ab.txt"%string
               [x61; x62; x0a; x63; x64] 2 x0a);
    [reflexivity | lia | reflexivity].
Defined.

(** X14. Past the end of the file nothing is clamped and nothing raises:
    the line stays that of the end of the file and the column grows with
    the offset. *)
Theorem get_line_cnt_from_cols_past_end
    (fs : string -> option (list byte)) (file_path : string)
    (data : list byte) (offset1 offset2 : Z) :
  fs file_path = Some data ->
  len data <= offset1 <= offset2 ->
  exists line column : Z,
    get_line_cnt_from_cols fs file_path offset1 = Ok (line, column)
    /\ get_line_cnt_from_cols fs file_path offset2
       = Ok (line, column + (offset2 - offset1))
    /\ line = bytes_count newline data + 1.
Proof.
  intros Hread Hoff. pose proof (len_nonneg data) as Hlen.
  unfold get_line_cnt_from_cols, read_bytes. rewrite Hread. cbn [bind].
  unfold py_slice_to.
  destruct (Z.ltb_spec offset1 0) as [Hneg | _]; [lia |].
  destruct (Z.ltb_spec offset2 0) as [Hneg | _]; [lia |].
  unfold len in Hoff. rewrite !firstn_all2 by lia.
  eexists _, _. split; [reflexivity |]. split; [| reflexivity].
  do 2 f_equal. lia.
Qed.

Lemma get_line_cnt_from_cols_past_end_witness :
  exists line column : Z,
    get_line_cnt_from_cols (fun _ => Some [x61; x0a; x62]) "ab.txt" 3
    = Ok (line, column)
    /\ get_line_cnt_from_cols (fun _ => Some [x61; x0a; x62]) "ab.txt" 10
       = Ok (line, column + (10 - 3))
    /\ line = bytes_count newline [x61; x0a; x62] + 1.
Proof.
  apply (get_line_cnt_from_cols_past_end
           (fun _ => Some [x61; x0a; x62]) "ab.txt"%string
           [x61; x0a; x62] 3 10);
    [reflexivity | cbv; split; discriminate].
Defined.

(** X15. A negative offset raises nothing and gives no 1-based position:
    the slice [data[:offset]] drops bytes from the end, so the line is
    counted up to [len(data) + offset] (or 0), while the column is computed
    from the negative offset itself and is never positive. *)
Theorem get_line_cnt_from_cols_negative
    (fs : string -> option (list byte)) (file_path : string)
    (data : list byte) (offset : Z) :
  fs file_path = Some data ->
  offset < 0 ->
  exists line column : Z,
    get_line_cnt_from_cols fs file_path offset = Ok (line, column)
    /\ line = newlines_before data (Z.max 0 (offset + len data)) + 1
    /\ 1 <= line
    /\ column <= 0.
Proof.
  intros Hread Hneg.
  unfold get_line_cnt_from_cols, read_bytes. rewrite Hread. cbn [bind].
  unfold py_slice_to.
  destruct (Z.ltb_spec offset 0) as [_ | Hpos]; [| lia].
  eexists _, _. split; [reflexivity |].
  rewrite bytes_count_firstn. unfold newlines_before.
  pose proof (bytes_rfind_lower newline
                (firstn (Z.to_nat (Z.max 0 (offset + len data))) data)).
  pose proof (len_nonneg
                (filter (newline_at data)
                   (seq 0 (Z.to_nat (Z.max 0 (offset + len data)))))).
  repeat split; lia.
Qed.

Lemma get_line_cnt_from_cols_negative_witness :
  exists line column : Z,
    get_line_cnt_from_cols (fun _ => Some [x61; x0a; x62]) "ab.txt" (-1)
    = Ok (line, column)
    /\ line = newlines_before [x61; x0a; x62]
                              (Z.max 0 (-1 + len [x61; x0a; x62]))
              + 1
    /\ 1 <= line
    /\ column <= 0.
Proof.
  apply (get_line_cnt_from_cols_negative
           (fun _ => Some [x61; x0a; x62]) "ab.txt"%string
           [x61; x0a; x62] (-1));
    [reflexivity | lia].
Defined.

(** ** Source file discovery *)

Section Discovery.
Local Open Scope string_scope.

Lemma for_each_app {A S : Type} (body : S -> A -> Exc S) (xs ys : list A) :
  forall s : S,
    for_each body (xs ++ ys) s
    = (s' <- for_each body xs s ;; for_each body ys s').
Proof.
  induction xs as [| x xs IH]; intros s; [reflexivity |].
  cbn [app for_each]. destruct (body s x) as [s' | e]; cbn [bind]; auto.
Qed.

(** A loop whose body only appends to its list can be run from the empty
    list and its result appended. *)
Lemma for_each_appends {A B : Type} (body : list B -> A -> Exc (list B))
    (xs : list A) :
  (forall s x, body s x = (r <- body [] x ;; Ok (s ++ r)%list)) ->
  forall s, for_each body xs s = (r <- for_each body xs [] ;; Ok (s ++ r)%list).
Proof.
  intros Hbody. induction xs as [| x xs IH]; intros s.
  - cbn [for_each bind]. now rewrite app_nil_r.
  - cbn [for_each]. rewrite (Hbody s x).
    destruct (body [] x) as [r0 |]; cbn [bind]; [| reflexivity].
    rewrite (IH (s ++ r0)%list), (IH r0).
    destruct (for_each body xs []); cbn [bind]; [| reflexivity].
    now rewrite app_assoc.
Qed.

Lemma for_each_invariant {A S : Type} (P : S -> Prop)
    (body : S -> A -> Exc S) (xs : list A) :
  (forall s x s', P s -> body s x = Ok s' -> P s') ->
  forall s s', P s -> for_each body xs s = Ok s' -> P s'.
Proof.
  intros Hbody. induction xs as [| x xs IH]; intros s s' Hs.
  - now intros [= <-].
  - cbn [for_each]. destruct (body s x) as [s1 |] eqn:Hb; [| discriminate].
    cbn [bind]. apply IH. eapply Hbody; eauto.
Qed.

Lemma for_each_yielded_ok {A S : Type} (body : S -> A -> Exc S)
    (gen : list A * option exn) (s s' : S) :
  for_each_yielded body gen s = Ok s'
  <-> for_each body (fst gen) s = Ok s' /\ snd gen = None.
Proof.
  unfold for_each_yielded.
  destruct (for_each body (fst gen) s) as [s1 |]; cbn [bind].
  - destruct (snd gen); split; try discriminate.
    + intros [_ H]. discriminate H.
    + intros [= <-]. now split.
    + intros [[= <-] _]. reflexivity.
  - split; [discriminate | intros [H _]; discriminate H].
Qed.

Lemma for_each_yielded_appends {A B : Type}
    (body : list B -> A -> Exc (list B)) (gen : list A * option exn) :
  (forall s x, body s x = (r <- body [] x ;; Ok (s ++ r)%list)) ->
  forall s,
    for_each_yielded body gen s
    = (r <- for_each_yielded body gen [] ;; Ok (s ++ r)%list).
Proof.
  intros Hbody s. unfold for_each_yielded.
  rewrite (for_each_appends body (fst gen) Hbody s).
  destruct (for_each body (fst gen) []) as [r |]; cbn [bind];
    [| reflexivity].
  now destruct (snd gen).
Qed.

Lemma init_found (rel_path : PurePath.t) :
  FileObj.__init__ (PurePath.as_posix rel_path) [] []
  = Ok (found_file rel_path).
Proof. reflexivity. Qed.

Lemma source_file_body_appends (ignored not_ignored : list string)
    (files : list FileObj.t) (rel_path : PurePath.t) :
  source_file_body ignored not_ignored files rel_path
  = (r <- source_file_body ignored not_ignored [] rel_path ;;
     Ok (files ++ r)%list).
Proof.
  unfold source_file_body.
  destruct (parents_loop _); [| cbn [bind]; now rewrite app_nil_r].
  destruct (is_file_in_list not_ignored _ _) as [[|] |]; cbn [bind];
    try reflexivity.
  destruct (is_file_in_list ignored _ _) as [[|] |]; cbn [bind negb];
    try reflexivity.
  now rewrite app_nil_r.
Qed.

Lemma source_file_body_found (ignored not_ignored : list string)
    (files files' : list FileObj.t) (rel_path : PurePath.t) :
  source_file_body ignored not_ignored files rel_path = Ok files' ->
  files' = files \/ files' = (files ++ [found_file rel_path])%list.
Proof.
  unfold source_file_body.
  destruct (parents_loop _); [| intros [= <-]; now left].
  destruct (is_file_in_list not_ignored _ _) as [[|] |]; cbn [bind];
    try discriminate.
  - intros [= <-]. now right.
  - destruct (is_file_in_list ignored _ _) as [[|] |]; cbn [bind negb];
      try discriminate; intros [= <-]; [now left | now right].
Qed.

Lemma whole_file_modes (file : FileObj.t) :
  whole_file file ->
  (forall mode : Z,
      has_line_changes mode (FileObj.diff_chunks file)
                       (FileObj.additions file) = true
      <-> mode = 0%Z)
  /\ (forall (mode : Z) (get_ranges : bool),
         FileObj.range_of_changed_lines file mode get_ranges = PyList []).
Proof.
  intros [Ha [Hd Hl]]. split.
  - intros mode. rewrite Ha, Hd. unfold has_line_changes, truthy.
    change (len (@nil (list Z))) with 0%Z. change (len (@nil Z)) with 0%Z.
    cbn [Z.gtb Z.compare]. rewrite !andb_false_r. cbn [orb].
    rewrite negb_involutive. apply Z.eqb_eq.
  - intros mode get_ranges. unfold FileObj.range_of_changed_lines.
    rewrite Ha, Hd, Hl.
    now destruct (truthy mode), (mode =? 1)%Z, get_ranges.
Qed.

(** X16. Every file that [list_source_files] returns carries no line data:
    its additions, diff chunks and added ranges are empty. So
    [has_line_changes] keeps it in mode 0 only, and
    [range_of_changed_lines] returns the empty list in every mode. *)
Theorem list_source_files_whole_files
    (walk : string -> list PurePath.t * option exn)
    (extensions ignored not_ignored : list string)
    (files : list FileObj.t) :
  list_source_files walk extensions ignored not_ignored = Ok files ->
  Forall
    (fun file =>
       whole_file file
       /\ (forall mode : Z,
              has_line_changes mode (FileObj.diff_chunks file)
                               (FileObj.additions file) = true
              <-> mode = 0%Z)
       /\ (forall (mode : Z) (get_ranges : bool),
              FileObj.range_of_changed_lines file mode get_ranges
              = PyList []))
    files.
Proof.
  intros Hrun.
  assert (Hwhole : Forall whole_file files).
  { revert Hrun. unfold list_source_files.
    apply (for_each_invariant (Forall whole_file)); [| constructor].
    intros s ext s' Hs Hloop.
    apply for_each_yielded_ok in Hloop as [Hloop _]. revert Hloop.
    apply (for_each_invariant (Forall whole_file)); [| exact Hs].
    clear. intros s rel s' Hs Hbody.
    apply source_file_body_found in Hbody as [-> | ->]; [exact Hs |].
    apply Forall_app. split; [exact Hs |].
    repeat constructor. }
  eapply Forall_impl; [| exact Hwhole].
  intros file Hfile. split; [exact Hfile |]. now apply whole_file_modes.
Qed.

Lemma list_source_files_append
    (walk : string -> list PurePath.t * option exn)
    (ignored not_ignored : list string) (extensions : list string) :
  forall files : list FileObj.t,
    for_each
      (fun files ext =>
         for_each_yielded (source_file_body ignored not_ignored)
                          (rglob walk ("*." ++ ext)) files)
      extensions files
    = (r <- list_source_files walk extensions ignored not_ignored ;;
       Ok (files ++ r)%list).
Proof.
  unfold list_source_files. apply for_each_appends.
  intros s ext. apply for_each_yielded_appends. intros s' rel.
  apply source_file_body_appends.
Qed.

(** X17. Extensions are searched one after the other and the results are
    joined: the files of [extensions1 ++ extensions2] are those of
    [extensions1] followed by those of [extensions2], and an error in either
    search is the error of the whole. An extension listed twice lists its
    files twice. *)
Theorem list_source_files_app
    (walk : string -> list PurePath.t * option exn)
    (extensions1 extensions2 ignored not_ignored : list string) :
  list_source_files walk (extensions1 ++ extensions2) ignored not_ignored
  = (files1 <- list_source_files walk extensions1 ignored not_ignored ;;
     files2 <- list_source_files walk extensions2 ignored not_ignored ;;
     Ok (files1 ++ files2)%list).
Proof.
  unfold list_source_files at 1. rewrite for_each_app.
  fold (list_source_files walk extensions1 ignored not_ignored).
  destruct (list_source_files walk extensions1 ignored not_ignored)
    as [files1 |]; cbn [bind]; [| reflexivity].
  apply list_source_files_append.
Qed.
Lemma parents_loop_forallb (parents : list string) :
  parents_loop parents
  = forallb (fun parent => negb (str_startswith "." parent)) parents.
Proof.
  induction parents as [| p l IH]; [reflexivity |].
  cbn [parents_loop forallb]. now destruct (str_startswith "." p).
Qed.

Lemma py_slice_to_minus_one {A : Type} (l : list A) :
  py_slice_to l (-1) = removelast l.
Proof.
  unfold py_slice_to, len. cbn [Z.ltb Z.compare].
  rewrite removelast_firstn_len. f_equal. lia.
Qed.

Lemma source_file_body_relative (ignored not_ignored : list string)
    (files : list FileObj.t) (rel_path : PurePath.t) :
  well_formed rel_path ->
  PurePath.root rel_path = "" ->
  Forall (fun rule => starts_with_sep rule = false) ignored ->
  Forall (fun rule => starts_with_sep rule = false) not_ignored ->
  source_file_body ignored not_ignored files rel_path
  = Ok (files ++ if source_kept ignored not_ignored rel_path
                 then [found_file rel_path] else [])%list.
Proof.
  intros Hwf Hroot Hign Hnot.
  assert (Hrel : starts_with_sep (PurePath.as_posix rel_path) = false)
    by (rewrite (as_posix_root _ Hwf), Hroot; reflexivity).
  assert (Hkind : forall rules,
             Forall (fun rule => starts_with_sep rule = false) rules ->
             same_kind (PurePath.as_posix rel_path) rules).
  { intros rules Hrules. unfold same_kind.
    eapply Forall_impl; [| exact Hrules]. intros rule Hr. congruence. }
  unfold source_file_body, source_kept, no_hidden_parent, passes_rules,
    PurePath.all_parts.
  rewrite Hroot. cbn [String.eqb].
  rewrite py_slice_to_minus_one, parents_loop_forallb.
  destruct (forallb _ (removelast (PurePath.parts rel_path)));
    cbn [andb]; [| now rewrite app_nil_r].
  rewrite (is_file_in_list_same_kind _ _ _ (Hkind _ Hnot)). cbn [bind].
  destruct (existsb (rule_matches (PurePath.as_posix rel_path)) not_ignored);
    cbn [bind orb]; [reflexivity |].
  rewrite (is_file_in_list_same_kind _ _ _ (Hkind _ Hign)). cbn [bind].
  destruct (existsb (rule_matches (PurePath.as_posix rel_path)) ignored);
    cbn [bind negb]; [now rewrite app_nil_r | reflexivity].
Qed.

Lemma inner_loop_relative (ignored not_ignored : list string)
    (rel_paths : list PurePath.t) :
  Forall (fun rel_path => well_formed rel_path
                          /\ PurePath.root rel_path = "") rel_paths ->
  Forall (fun rule => starts_with_sep rule = false) ignored ->
  Forall (fun rule => starts_with_sep rule = false) not_ignored ->
  forall files : list FileObj.t,
    for_each (source_file_body ignored not_ignored) rel_paths files
    = Ok (files
          ++ map found_file
                 (filter (source_kept ignored not_ignored) rel_paths))%list.
Proof.
  intros Hpaths Hign Hnot.
  induction Hpaths as [| rel rels [Hwf Hroot] _ IH]; intros files.
  - cbn. now rewrite app_nil_r.
  - cbn [for_each filter].
    rewrite (source_file_body_relative _ _ _ _ Hwf Hroot Hign Hnot).
    cbn [bind]. rewrite IH.
    destruct (source_kept ignored not_ignored rel); cbn [map];
      now rewrite <- app_assoc.
Qed.

Lemma outer_loop_relative (walk : string -> list PurePath.t * option exn)
    (ignored not_ignored : list string) (extensions : list string) :
  relative_tree walk ->
  valid_extensions extensions ->
  Forall (fun rule => starts_with_sep rule = false) ignored ->
  Forall (fun rule => starts_with_sep rule = false) not_ignored ->
  forall files : list FileObj.t,
    for_each
      (fun files ext =>
         for_each_yielded (source_file_body ignored not_ignored)
                          (rglob walk ("*." ++ ext)) files)
      extensions files
    = Ok (files
          ++ flat_map
               (fun ext =>
                  map found_file
                      (filter (source_kept ignored not_ignored)
                              (fst (walk ("*." ++ ext)%string))))
               extensions)%list.
Proof.
  intros Htree Hvalid Hign Hnot.
  induction Hvalid as [| ext extensions Hext _ IH]; intros files.
  - cbn. now rewrite app_nil_r.
  - cbn [for_each flat_map]. unfold rglob at 1, for_each_yielded.
    rewrite Hext. destruct (Htree ("*." ++ ext)) as [Hend Hpaths].
    rewrite Hend, inner_loop_relative; auto.
    + cbn [bind]. rewrite IH. now rewrite <- app_assoc.
    + apply Forall_forall. exact Hpaths.
Qed.

Lemma list_source_files_invalid
    (walk : string -> list PurePath.t * option exn)
    (ext : string) (extensions ignored not_ignored : list string) :
  invalid_glob ("*." ++ ext) = true ->
  list_source_files walk (ext :: extensions) ignored not_ignored
  = Raise ValueError.
Proof.
  intros Hext. unfold list_source_files. cbn [for_each].
  unfold rglob, for_each_yielded. now rewrite Hext.
Qed.

(** X18. When every extension gives a glob pattern that [pathlib] accepts,
    the walk of the tree is not interrupted and yields relative paths, and
    all rules are relative, [list_source_files] raises nothing and returns,
    extension by extension and in the order of the walk, one descriptor
    without line data for each path that has no parent directory whose name
    starts with a dot and that matches a not-ignored rule or no ignored
    rule. A first extension whose pattern [pathlib] rejects, such as [**],
    makes it raise [ValueError]. *)
Theorem list_source_files_relative :
  (forall (walk : string -> list PurePath.t * option exn)
          (extensions ignored not_ignored : list string),
      relative_tree walk ->
      valid_extensions extensions ->
      Forall (fun rule => starts_with_sep rule = false) ignored ->
      Forall (fun rule => starts_with_sep rule = false) not_ignored ->
      list_source_files walk extensions ignored not_ignored
      = Ok (flat_map
              (fun ext =>
                 map found_file
                     (filter (source_kept ignored not_ignored)
                             (fst (walk ("*." ++ ext)))))
              extensions))
  /\ (forall (walk : string -> list PurePath.t * option exn)
             (ext : string) (extensions ignored not_ignored : list string),
         invalid_glob ("*." ++ ext) = true ->
         list_source_files walk (ext :: extensions) ignored not_ignored
         = Raise ValueError)
  /\ invalid_glob ("*." ++ "**") = true.
Proof.
  split; [| split; [apply list_source_files_invalid | reflexivity]].
  intros walk extensions ignored not_ignored Htree Hvalid Hign Hnot.
  unfold list_source_files.
  now rewrite (outer_loop_relative _ _ _ _ Htree Hvalid Hign Hnot).
Qed.

Lemma demo_tree_relative : relative_tree demo_tree.
Proof.
  intros pattern. unfold demo_tree.
  destruct (String.eqb pattern "*.cpp"); cbn [fst snd];
    (split; [reflexivity |]); [| intros rel []].
  intros rel [<- | [<- | [<- | []]]];
    (split; [apply parse_well_formed | reflexivity]).
Qed.

Lemma list_source_files_relative_witness :
  (relative_tree demo_tree
   /\ valid_extensions ["cpp"]
   /\ Forall (fun rule => starts_with_sep rule = false) ["src/gen"]
   /\ Forall (fun rule => starts_with_sep rule = false) [])
  /\ list_source_files demo_tree ["cpp"] ["src/gen"] []
     = Ok (flat_map
             (fun ext =>
                map found_file
                    (filter (source_kept ["src/gen"] [])
                            (fst (demo_tree ("*." ++ ext)))))
             ["cpp"]).
Proof.
  assert (Hext : valid_extensions ["cpp"]) by (repeat constructor).
  assert (Hign : Forall (fun rule => starts_with_sep rule = false) ["src/gen"])
    by (repeat constructor).
  assert (Hnot : Forall (fun rule : string => starts_with_sep rule = false) [])
    by constructor.
  split;
    [split; [apply demo_tree_relative
            | split; [exact Hext | split; [exact Hign | exact Hnot]]] |].
  apply (proj1 list_source_files_relative demo_tree ["cpp"] ["src/gen"] []
               demo_tree_relative Hext Hign Hnot).
Defined.

(** Of the demo tree only [src/a.cpp] is returned: [.git/b.cpp] is below a
    hidden directory and [src/gen/c.cpp] is ignored. *)
Example list_source_files_demo :
  list_source_files demo_tree ["cpp"] ["src/gen"] []
  = Ok [FileObj.mk "src/a.cpp" [] [] []]
  /\ list_source_files demo_tree ["cpp"; "**"] ["src/gen"] []
     = Raise ValueError.
Proof. split; reflexivity. Qed.

Lemma list_source_files_whole_files_witness :
  list_source_files demo_tree ["cpp"] ["src/gen"] []
  = Ok [FileObj.mk "src/a.cpp" [] [] []]
  /\ Forall
       (fun file =>
          whole_file file
          /\ (forall mode : Z,
                 has_line_changes mode (FileObj.diff_chunks file)
                                  (FileObj.additions file) = true
                 <-> mode = 0%Z)
          /\ (forall (mode : Z) (get_ranges : bool),
                 FileObj.range_of_changed_lines file mode get_ranges
                 = PyList []))
       [FileObj.mk "src/a.cpp" [] [] []].
Proof.
  split; [reflexivity |].
  apply (list_source_files_whole_files demo_tree ["cpp"] ["src/gen"] []).
  reflexivity.
Defined.
End Discovery.

(** ** Composition laws *)

Section Composition.
Local Open Scope string_scope.

(** X19. Rule lists compose: the answer on [rules1 ++ rules2] is the answer
    on [rules1] when that is true or an error, and else the answer on
    [rules2]. *)
Theorem is_file_in_list_app (rules1 rules2 : list string)
    (file_name prompt : string) :
  is_file_in_list (rules1 ++ rules2) file_name prompt
  = (found <- is_file_in_list rules1 file_name prompt ;;
     if found then Ok true else is_file_in_list rules2 file_name prompt).
Proof.
  induction rules1 as [| rule rules1 IH]; [reflexivity |].
  cbn [app]. rewrite !is_file_in_list_step.
  destruct (Bool.eqb (starts_with_sep rule) (starts_with_sep file_name));
    [| reflexivity].
  destruct (rule_matches file_name rule); [reflexivity | exact IH].
Qed.

(** X20. [is_source_or_ignored] raises only [ValueError], and only for a
    path whose extension is allowed; a not-ignored rule that is reached and
    matches settles the answer before the ignored rules are read, so a rule
    of the wrong kind among them does no harm. *)
Theorem is_source_or_ignored_errors
    (file_name : string) (ext_list ignored not_ignored : list string) :
  (forall e : exn,
      is_source_or_ignored file_name ext_list ignored not_ignored = Raise e ->
      e = ValueError /\ In (extension_of file_name) ext_list)
  /\ (In (extension_of file_name) ext_list ->
      is_file_in_list not_ignored file_name "not ignored" = Ok true ->
      is_source_or_ignored file_name ext_list ignored not_ignored = Ok true).
Proof.
  unfold is_source_or_ignored. fold (extension_of file_name). split.
  - intros e.
    destruct (str_in (extension_of file_name) ext_list) eqn:Hext;
      [| discriminate].
    apply str_in_iff in Hext.
    destruct (is_file_in_list not_ignored file_name "not ignored")
      as [[|] | e1] eqn:Hnot; cbn [bind]; try discriminate.
    + destruct (is_file_in_list ignored file_name "ignored")
        as [b | e2] eqn:Hign; cbn [bind]; [discriminate |].
      intros [= <-]. apply is_file_in_list_raise in Hign as [-> _].
      now split.
    + intros [= <-]. apply is_file_in_list_raise in Hnot as [-> _].
      now split.
  - intros Hext Hnot. apply str_in_iff in Hext. now rewrite Hext, Hnot.
Qed.

Lemma is_source_or_ignored_errors_witness :
  (In (extension_of "src/a.cpp") ["cpp"]
   /\ is_file_in_list ["src"] "src/a.cpp" "not ignored" = Ok true)
  /\ is_source_or_ignored "src/a.cpp" ["cpp"] ["/x"] ["src"] = Ok true.
Proof.
  assert (Hext : In (extension_of "src/a.cpp") ["cpp"]) by (now left).
  split; [split; [exact Hext | reflexivity] |].
  apply (proj2 (is_source_or_ignored_errors "src/a.cpp" ["cpp"] ["/x"]
                                            ["src"]));
    [exact Hext | reflexivity].
Defined.

(** X21. The two views of mode 2 agree on a constructed file: the ranges
    returned with [get_ranges] expand to the line numbers returned without
    it, whatever the additions are. *)
Theorem range_views_agree (name : string) (additions : list Z)
    (diff_chunks : list (list Z)) :
  exists (self : FileObj.t) (rs : list (Z * Z)),
    FileObj.__init__ name additions diff_chunks = Ok self
    /\ FileObj.range_of_changed_lines self 2 true
       = of_ranges (map range_to_list rs)
    /\ FileObj.range_of_changed_lines self 2 false = of_lines (expand rs).
Proof.
  unfold FileObj.__init__. rewrite consolidate_runs. cbn [bind].
  eexists _, (runs additions). split; [reflexivity |].
  split; [reflexivity |]. cbn. now rewrite expand_runs.
Qed.
End Composition.
